(** * DSMC with Larsen-Borgnakke energy exchange: a model of [dsmc.py]

    The development embeds the class [DSMCSimulation] of [src/dsmc.py] and
    proves properties of its collision engine.

    Arithmetic model.  NumPy's [float64] values are modelled by the real
    numbers of the Standard Library: [+], [-], [*], [/], [np.sqrt],
    [np.sin], ... are the exact real operations, and comparisons are the
    (classically decidable) order of [R].  Rounding, overflow, [inf] and
    [nan] are outside this model; a statement about it is a statement
    about the program run in exact arithmetic.  The model is exact where
    the program divides by a non-zero number and takes the square root of
    a non-negative one; the statements about whole runs assume physical
    constants ([physical] below) for which every operation of a run is of
    that kind.

    Binary64.  Rounding decides two things that the exact model cannot
    show: the value of [np.mod] on a coordinate just below zero, and the
    cell of a coordinate equal to the box length.  The module [F64]
    evaluates [update_positions] and [assign_to_cells] on binary64 numbers,
    and the statements about the periodic wrap and about the bounds of the
    cell index are statements about that evaluation.

    Randomness.  Calls into [np.random] are modelled by an explicit
    stream of draws that the program consumes; the theorems quantify over
    every stream.

    Exceptions.  Python mutates the simulation object in place, so an
    exception leaves the object in the state reached so far: an operation
    of the model returns the state together with either a value or the
    exception raised. *)

From Stdlib Require Import Reals Lra Lia ZArith Zfloor.
From Stdlib Require PrimFloat SpecFloat FloatOps.
From stdpp Require Import base list sorting.

Open Scope R_scope.

(** ** Exceptions and results *)

Inductive exn : Type :=
  | IndexError
  | ZeroDivisionError
  | ValueError
  | AttributeError
  | AssertionError.

Inductive res (A : Type) : Type :=
  | Ok (a : A)
  | Raise (e : exn).

Arguments Ok {A} a.
Arguments Raise {A} e.

(** ** Scalars *)

(** [int(x)] of a Python float: truncation toward zero. *)
Definition py_int (x : R) : Z :=
  if Rle_dec 0 x then Zfloor x else Zceil x.

(** [np.mod(x, d)]: the remainder has the sign of the divisor.  This is the
    exact remainder, which lies in [[0, d)] for [d > 0]; the rounded one is
    [F64.np_mod], which returns [d] itself for some [x] just below zero. *)
Definition np_mod (x d : R) : R := x - d * IZR (Zfloor (x / d)).

(** [x // d] on floats followed by [.astype(int)]. *)
Definition np_floor_divide (x d : R) : Z := Zfloor (x / d).

(** [np.clip(x, lo, hi)]. *)
Definition np_clip (x lo hi : R) : R := Rmin (Rmax x lo) hi.

(** [np.isclose(a, b, atol=atol)] with NumPy's default [rtol = 1e-05]. *)
Definition np_isclose (a b atol : R) : Prop :=
  Rabs (a - b) <= atol + 1e-05 * Rabs b.

Definition np_isclose_dec (a b atol : R) :
  {np_isclose a b atol} + {~ np_isclose a b atol} :=
  Rle_dec (Rabs (a - b)) (atol + 1e-05 * Rabs b).

(** Indexing one axis of length [n] of a NumPy array with the integer [i]:
    negative indices count from the end, anything else out of range raises
    [IndexError]. *)
Definition np_index (n i : Z) : option Z :=
  if (0 <=? i)%Z && (i <? n)%Z then Some i
  else if (- n <=? i)%Z && (i <? 0)%Z then Some (i + n)%Z
  else None.

(** ** Three-component arrays *)

Record vec3 : Type := V3 { vx : R; vy : R; vz : R }.

Definition vadd (a b : vec3) : vec3 :=
  V3 (vx a + vx b) (vy a + vy b) (vz a + vz b).

Definition vsub (a b : vec3) : vec3 :=
  V3 (vx a - vx b) (vy a - vy b) (vz a - vz b).

(** A scalar times an array. *)
Definition vscale (c : R) (a : vec3) : vec3 :=
  V3 (c * vx a) (c * vy a) (c * vz a).

(** [a ** 2], element by element. *)
Definition vsq (a : vec3) : vec3 :=
  V3 (vx a * vx a) (vy a * vy a) (vz a * vz a).

(** [np.sum(a)]. *)
Definition vsum (a : vec3) : R := vx a + vy a + vz a.

(** [np.linalg.norm(a)]. *)
Definition norm (a : vec3) : R := sqrt (vsum (vsq a)).

(** [np.mod(a, d)], element by element. *)
Definition vmod (a : vec3) (d : R) : vec3 :=
  V3 (np_mod (vx a) d) (np_mod (vy a) d) (np_mod (vz a) d).

(** ** The simulation object *)

(** The learned surrogate is used through [predict] on one row of three
    features, which returns one row of two outputs. *)
Definition predictor : Type := R -> R -> R -> R * R.

(** [self.cells]: an [n_cells x n_cells x n_cells] array of lists of
    particle indices.  The contents are a function of the cell coordinate;
    the shape is [n_cells] on every axis and is checked on access. *)
Definition cell_array : Type := Z * Z * Z -> list nat.

(** Constants that [__init__] sets to literals and nothing reassigns. *)
Definition k_B : R := 1.38e-23.
Definition m_H2 : R := 3.34e-26.
Definition density : R := 0.9.

Record DSMCSimulation : Type := mkSim {
  n_particles : Z;
  n_steps : Z;
  T_tr_initial : R;
  T_rot_initial : R;
  Z_r : R;
  p_inelastic : R;
  domain_size : R;
  n_cells : Z;
  sigma_collision : R;
  v_init : R;
  time_step : R;
  eff_num : R;
  coeff : R;
  use_mdn : bool;
  mdn_model : option predictor;
  positions : list vec3;
  velocities : list vec3;
  rotational_energy : list R;
  cells : cell_array;
  cell_size : R;
  volume_cell : R;
  translational_energy_history : list R;
  rotational_energy_history : list R;
  total_energy_history : list R;
  elastic_collisions : nat;
  inelastic_collisions : nat;
  rejected_collisions : nat
}.

Definition set_positions (x : list vec3) (self : DSMCSimulation)
    : DSMCSimulation :=
  mkSim (n_particles self) (n_steps self) (T_tr_initial self)
    (T_rot_initial self) (Z_r self) (p_inelastic self) (domain_size self)
    (n_cells self) (sigma_collision self) (v_init self) (time_step self)
    (eff_num self) (coeff self) (use_mdn self) (mdn_model self) x
    (velocities self) (rotational_energy self) (cells self) (cell_size self)
    (volume_cell self) (translational_energy_history self)
    (rotational_energy_history self) (total_energy_history self)
    (elastic_collisions self) (inelastic_collisions self)
    (rejected_collisions self).

Definition set_velocities (x : list vec3) (self : DSMCSimulation)
    : DSMCSimulation :=
  mkSim (n_particles self) (n_steps self) (T_tr_initial self)
    (T_rot_initial self) (Z_r self) (p_inelastic self) (domain_size self)
    (n_cells self) (sigma_collision self) (v_init self) (time_step self)
    (eff_num self) (coeff self) (use_mdn self) (mdn_model self)
    (positions self) x (rotational_energy self) (cells self) (cell_size self)
    (volume_cell self) (translational_energy_history self)
    (rotational_energy_history self) (total_energy_history self)
    (elastic_collisions self) (inelastic_collisions self)
    (rejected_collisions self).

Definition set_rotational_energy (x : list R) (self : DSMCSimulation)
    : DSMCSimulation :=
  mkSim (n_particles self) (n_steps self) (T_tr_initial self)
    (T_rot_initial self) (Z_r self) (p_inelastic self) (domain_size self)
    (n_cells self) (sigma_collision self) (v_init self) (time_step self)
    (eff_num self) (coeff self) (use_mdn self) (mdn_model self)
    (positions self) (velocities self) x (cells self) (cell_size self)
    (volume_cell self) (translational_energy_history self)
    (rotational_energy_history self) (total_energy_history self)
    (elastic_collisions self) (inelastic_collisions self)
    (rejected_collisions self).

Definition set_cells (x : cell_array) (self : DSMCSimulation)
    : DSMCSimulation :=
  mkSim (n_particles self) (n_steps self) (T_tr_initial self)
    (T_rot_initial self) (Z_r self) (p_inelastic self) (domain_size self)
    (n_cells self) (sigma_collision self) (v_init self) (time_step self)
    (eff_num self) (coeff self) (use_mdn self) (mdn_model self)
    (positions self) (velocities self) (rotational_energy self) x
    (cell_size self) (volume_cell self) (translational_energy_history self)
    (rotational_energy_history self) (total_energy_history self)
    (elastic_collisions self) (inelastic_collisions self)
    (rejected_collisions self).

Definition set_translational_energy_history (x : list R) (self : DSMCSimulation)
    : DSMCSimulation :=
  mkSim (n_particles self) (n_steps self) (T_tr_initial self)
    (T_rot_initial self) (Z_r self) (p_inelastic self) (domain_size self)
    (n_cells self) (sigma_collision self) (v_init self) (time_step self)
    (eff_num self) (coeff self) (use_mdn self) (mdn_model self)
    (positions self) (velocities self) (rotational_energy self) (cells self)
    (cell_size self) (volume_cell self) x (rotational_energy_history self)
    (total_energy_history self) (elastic_collisions self)
    (inelastic_collisions self) (rejected_collisions self).

Definition set_rotational_energy_history (x : list R) (self : DSMCSimulation)
    : DSMCSimulation :=
  mkSim (n_particles self) (n_steps self) (T_tr_initial self)
    (T_rot_initial self) (Z_r self) (p_inelastic self) (domain_size self)
    (n_cells self) (sigma_collision self) (v_init self) (time_step self)
    (eff_num self) (coeff self) (use_mdn self) (mdn_model self)
    (positions self) (velocities self) (rotational_energy self) (cells self)
    (cell_size self) (volume_cell self) (translational_energy_history self) x
    (total_energy_history self) (elastic_collisions self)
    (inelastic_collisions self) (rejected_collisions self).

Definition set_total_energy_history (x : list R) (self : DSMCSimulation)
    : DSMCSimulation :=
  mkSim (n_particles self) (n_steps self) (T_tr_initial self)
    (T_rot_initial self) (Z_r self) (p_inelastic self) (domain_size self)
    (n_cells self) (sigma_collision self) (v_init self) (time_step self)
    (eff_num self) (coeff self) (use_mdn self) (mdn_model self)
    (positions self) (velocities self) (rotational_energy self) (cells self)
    (cell_size self) (volume_cell self) (translational_energy_history self)
    (rotational_energy_history self) x (elastic_collisions self)
    (inelastic_collisions self) (rejected_collisions self).

Definition set_elastic_collisions (x : nat) (self : DSMCSimulation)
    : DSMCSimulation :=
  mkSim (n_particles self) (n_steps self) (T_tr_initial self)
    (T_rot_initial self) (Z_r self) (p_inelastic self) (domain_size self)
    (n_cells self) (sigma_collision self) (v_init self) (time_step self)
    (eff_num self) (coeff self) (use_mdn self) (mdn_model self)
    (positions self) (velocities self) (rotational_energy self) (cells self)
    (cell_size self) (volume_cell self) (translational_energy_history self)
    (rotational_energy_history self) (total_energy_history self) x
    (inelastic_collisions self) (rejected_collisions self).

Definition set_inelastic_collisions (x : nat) (self : DSMCSimulation)
    : DSMCSimulation :=
  mkSim (n_particles self) (n_steps self) (T_tr_initial self)
    (T_rot_initial self) (Z_r self) (p_inelastic self) (domain_size self)
    (n_cells self) (sigma_collision self) (v_init self) (time_step self)
    (eff_num self) (coeff self) (use_mdn self) (mdn_model self)
    (positions self) (velocities self) (rotational_energy self) (cells self)
    (cell_size self) (volume_cell self) (translational_energy_history self)
    (rotational_energy_history self) (total_energy_history self)
    (elastic_collisions self) x (rejected_collisions self).

Definition set_rejected_collisions (x : nat) (self : DSMCSimulation)
    : DSMCSimulation :=
  mkSim (n_particles self) (n_steps self) (T_tr_initial self)
    (T_rot_initial self) (Z_r self) (p_inelastic self) (domain_size self)
    (n_cells self) (sigma_collision self) (v_init self) (time_step self)
    (eff_num self) (coeff self) (use_mdn self) (mdn_model self)
    (positions self) (velocities self) (rotational_energy self) (cells self)
    (cell_size self) (volume_cell self) (translational_energy_history self)
    (rotational_energy_history self) (total_energy_history self)
    (elastic_collisions self) (inelastic_collisions self) x.

(** The same object with another surrogate configuration. *)
Definition with_mdn (b : bool) (m : option predictor)
    (self : DSMCSimulation) : DSMCSimulation :=
  mkSim (n_particles self) (n_steps self) (T_tr_initial self)
    (T_rot_initial self) (Z_r self) (p_inelastic self) (domain_size self)
    (n_cells self) (sigma_collision self) (v_init self) (time_step self)
    (eff_num self) (coeff self) b m
    (positions self) (velocities self) (rotational_energy self) (cells self)
    (cell_size self) (volume_cell self) (translational_energy_history self)
    (rotational_energy_history self) (total_energy_history self)
    (elastic_collisions self) (inelastic_collisions self)
    (rejected_collisions self).

(** ** Random draws *)

(** What one collision attempt takes from [np.random], in the order the
    program asks for it: the two positions chosen in the cell's list, the
    uniform draw of the acceptance test, the uniform draw of the type test,
    the Beta(3/2, 1) draw of the inelastic branch and the two uniform draws
    of [random_unit_vector].  A branch that does not reach a call leaves
    the corresponding field unused. *)
Record draws : Type := mkDraws {
  choice1 : nat;
  choice2 : nat;
  rand_accept : R;
  rand_type : R;
  beta_trans : R;
  rand_theta : R;
  rand_phi : R
}.

(** The generator: the draws still to come. *)
Definition rng : Type := nat -> draws.

(** What [np.random] may return: [rand()] lies in [[0, 1)] and a Beta
    variate in [[0, 1]]. *)
Definition valid_draws (d : draws) : Prop :=
  0 <= rand_accept d < 1 /\ 0 <= rand_type d < 1 /\
  0 <= beta_trans d <= 1 /\
  0 <= rand_theta d < 1 /\ 0 <= rand_phi d < 1.

(** ** Methods without side effects *)

Definition compute_kinetic_energy (velocity : vec3) : R :=
  0.5 * m_H2 * vsum (vsq velocity).

(** The exact value lies strictly between 0 and 1; the rounded one is 1 for
    large [x] and 0 for large [- x]. *)
Definition sigmoid (x : R) : R := 1 / (1 + exp (- x)).

Definition inv_sigmoid (x : R) : R :=
  let epsilon := 1e-9 in
  let x := np_clip x epsilon (1 - epsilon) in
  ln (x / (1 - x)).

(** [mdn_energy_exchange]: [self.mdn_model.predict] on the three features,
    both outputs passed through [sigmoid].  With [mdn_model = None] the
    attribute access raises. *)
Definition mdn_energy_exchange (self : DSMCSimulation)
    (pre_collisional_energies : R * R * R) : res (R * R) :=
  let '(log_Ec, inv_eps_t, inv_eps_r1) := pre_collisional_energies in
  match mdn_model self with
  | Some predict =>
      let '(inv_eps_tp, inv_eps_r1p) := predict log_Ec inv_eps_t inv_eps_r1 in
      Ok (sigmoid inv_eps_tp, sigmoid inv_eps_r1p)
  | None => Raise AttributeError
  end.

Definition calculate_relative_velocity (vel1 vel2 : vec3) : vec3 :=
  vsub vel1 vel2.

(** [random_unit_vector], from its two uniform draws. *)
Definition random_unit_vector (u1 u2 : R) : vec3 :=
  let theta := acos (1 - 2 * u1) in
  let phi := 2 * PI * u2 in
  V3 (sin theta * cos phi) (sin theta * sin phi) (cos theta).

(** The translational energy of a pair in the frame moving with [cm]:
    the expression of [E_trans_pre] and of [E_trans_post_check]. *)
Definition cm_frame_energy (v1 v2 cm : vec3) : R :=
  0.5 * m_H2 * vsum (vadd (vsq (vsub v1 cm)) (vsq (vsub v2 cm))).

(** ** [perform_collision]

    [velocity1] and [velocity2] are views of rows of [self.velocities];
    they are read only before the rows are overwritten, so the model reads
    them once.  The energy check at the end reads the arrays again, after
    the writes, as the source does.  Indices are the non-negative particle
    indices stored in the cell lists.  [dsmc_step] never passes a zero
    [max_rel_velocity]: a cell whose maximum is zero has no candidate
    pair. *)
Definition perform_collision (self : DSMCSimulation) (idx1 idx2 : nat)
    (max_rel_velocity : R) (d : draws) : DSMCSimulation * res unit :=
  match velocities self !! idx1, velocities self !! idx2 with
  | Some velocity1, Some velocity2 =>
    let relative_velocity := calculate_relative_velocity velocity1 velocity2 in
    let CM_velocity := vscale 0.5 (vadd velocity1 velocity2) in
    let collision_prob := norm relative_velocity / max_rel_velocity in
    if Rgt_dec (rand_accept d) collision_prob then
      (set_rejected_collisions (S (rejected_collisions self)) self, Ok tt)
    else if Rgt_dec (rand_type d) (p_inelastic self) then
      let self := set_elastic_collisions (S (elastic_collisions self)) self in
      let relative_speed := norm relative_velocity in
      let new_relative_velocity :=
        vscale relative_speed
          (random_unit_vector (rand_theta d) (rand_phi d)) in
      let self :=
        set_velocities
          (<[idx1 := vadd CM_velocity (vscale 0.5 new_relative_velocity)]>
             (velocities self)) self in
      let self :=
        set_velocities
          (<[idx2 := vsub CM_velocity (vscale 0.5 new_relative_velocity)]>
             (velocities self)) self in
      (self, Ok tt)
    else
      let self :=
        set_inelastic_collisions (S (inelastic_collisions self)) self in
      let E_trans_pre := cm_frame_energy velocity1 velocity2 CM_velocity in
      match rotational_energy self !! idx1, rotational_energy self !! idx2 with
      | Some rot1, Some rot2 =>
        let E_rot_pre := rot1 + rot2 in
        let E_total_pre := E_trans_pre + E_rot_pre in
        let energy_fraction_trans := beta_trans d in
        let E_trans_post := E_total_pre * energy_fraction_trans in
        let E_rot_post := E_total_pre - E_trans_post in
        let self :=
          set_rotational_energy
            (<[idx1 := E_rot_post / 2]> (rotational_energy self)) self in
        let self :=
          set_rotational_energy
            (<[idx2 := E_rot_post / 2]> (rotational_energy self)) self in
        let relative_speed := sqrt (4 * E_trans_post / m_H2) in
        let new_relative_velocity :=
          vscale relative_speed
            (random_unit_vector (rand_theta d) (rand_phi d)) in
        let self :=
          set_velocities
            (<[idx1 := vadd CM_velocity (vscale 0.5 new_relative_velocity)]>
               (velocities self)) self in
        let self :=
          set_velocities
            (<[idx2 := vsub CM_velocity (vscale 0.5 new_relative_velocity)]>
               (velocities self)) self in
        match velocities self !! idx1, velocities self !! idx2,
              rotational_energy self !! idx1, rotational_energy self !! idx2
        with
        | Some new1, Some new2, Some new_rot1, Some new_rot2 =>
          let E_trans_post_check := cm_frame_energy new1 new2 CM_velocity in
          let E_rot_post_check := new_rot1 + new_rot2 in
          let E_total_post := E_trans_post_check + E_rot_post_check in
          if np_isclose_dec E_total_pre E_total_post 1e-10
          then (self, Ok tt)
          else (self, Raise AssertionError)
        | _, _, _, _ => (self, Raise IndexError)
        end
      | _, _ => (self, Raise IndexError)
      end
  | _, _ => (self, Raise IndexError)
  end.

(** ** Position update and cell assignment *)

(** [update_positions].  Both arrays have one row per particle, so the
    element-wise operations pair row [i] with row [i]. *)
Definition update_positions (self : DSMCSimulation) : DSMCSimulation :=
  let self :=
    set_positions
      (zip_with (fun p v => vadd p (vscale (time_step self) v))
         (positions self) (velocities self)) self in
  set_positions (map (fun p => vmod p (domain_size self)) (positions self))
    self.

(** [initialize_cells]: a fresh array whose every entry is the empty list. *)
Definition initialize_cells (self : DSMCSimulation) : DSMCSimulation :=
  set_cells (fun _ => []) self.

(** [range(n)] for a Python integer [n]. *)
Definition py_range (n : Z) : list nat := seq 0 (Z.to_nat n).

(** [cells[x, y, z].append(i)]. *)
Definition cell_append (c : cell_array) (key : Z * Z * Z) (i : nat)
    : cell_array :=
  fun key' => if decide (key' = key) then c key ++ [i] else c key'.

(** The cell coordinate of a position on one axis:
    [(position // cell_size).astype(int)]. *)
Definition cell_index (self : DSMCSimulation) (x : R) : Z :=
  np_floor_divide x (cell_size self).

(** One iteration of the loop of [assign_to_cells]. *)
Definition assign_particle (i : nat) (self : DSMCSimulation)
    : DSMCSimulation * res unit :=
  match positions self !! i with
  | Some p =>
    let x := cell_index self (vx p) in
    let y := cell_index self (vy p) in
    let z := cell_index self (vz p) in
    match np_index (n_cells self) x, np_index (n_cells self) y,
          np_index (n_cells self) z with
    | Some x', Some y', Some z' =>
      (set_cells (cell_append (cells self) (x', y', z') i) self, Ok tt)
    | _, _, _ => (self, Raise IndexError)
    end
  | None => (self, Raise IndexError)
  end.

Fixpoint assign_loop (l : list nat) (self : DSMCSimulation)
    : DSMCSimulation * res unit :=
  match l with
  | [] => (self, Ok tt)
  | i :: l' =>
    match assign_particle i self with
    | (self', Ok _) => assign_loop l' self'
    | (self', Raise e) => (self', Raise e)
    end
  end.

Definition assign_to_cells (self : DSMCSimulation)
    : DSMCSimulation * res unit :=
  let self := initialize_cells self in
  assign_loop (py_range (n_particles self)) self.

(** ** Maximum relative speed in a cell *)

(** The inner loop, over the positions after [i]. *)
Fixpoint max_rel_inner (self : DSMCSimulation) (idx1 : nat)
    (later : list nat) (max_rel_velocity : R) : res R :=
  match later with
  | [] => Ok max_rel_velocity
  | idx2 :: later' =>
    match velocities self !! idx1, velocities self !! idx2 with
    | Some v1, Some v2 =>
      let rel_velocity := calculate_relative_velocity v1 v2 in
      let rel_velocity_magnitude := norm rel_velocity in
      max_rel_inner self idx1 later'
        (if Rgt_dec rel_velocity_magnitude max_rel_velocity
         then rel_velocity_magnitude else max_rel_velocity)
    | _, _ => Raise IndexError
    end
  end.

(** The outer loop. *)
Fixpoint max_rel_outer (self : DSMCSimulation) (particles : list nat)
    (max_rel_velocity : R) : res R :=
  match particles with
  | [] => Ok max_rel_velocity
  | idx1 :: later =>
    match max_rel_inner self idx1 later max_rel_velocity with
    | Ok m => max_rel_outer self later m
    | Raise e => Raise e
    end
  end.

Definition max_relative_velocity_in_cell (self : DSMCSimulation)
    (particles_in_cell : list nat) : res R :=
  max_rel_outer self particles_in_cell 0.

(** ** Energies *)

Definition sum_R (l : list R) : R := foldr Rplus 0 l.

Definition calculate_total_energy (self : DSMCSimulation) : R * R * R :=
  let total_kinetic_energy :=
    sum_R (map compute_kinetic_energy (velocities self)) in
  let total_rotational_energy := sum_R (rotational_energy self) in
  let total_energy := (total_kinetic_energy + total_rotational_energy) / 1 in
  (total_kinetic_energy, total_rotational_energy, total_energy).

(** ** State, generator and exceptions in one monad *)

Definition world : Type := DSMCSimulation * rng.

Definition M (A : Type) : Type := world -> world * res A.

Definition ret {A : Type} (a : A) : M A := fun w => (w, Ok a).

Definition bind {A B : Type} (m : M A) (f : A -> M B) : M B :=
  fun w =>
    match m w with
    | (w', Ok a) => f a w'
    | (w', Raise e) => (w', Raise e)
    end.

Notation "x <- m ;; k" := (bind m (fun x => k))
  (at level 100, m at next level, right associativity).
Notation "m ;;; k" := (bind m (fun _ => k))
  (at level 100, right associativity).

Definition get_self : M DSMCSimulation := fun w => (w, Ok (fst w)).

Definition modify (f : DSMCSimulation -> DSMCSimulation) : M unit :=
  fun w => ((f (fst w), snd w), Ok tt).

(** A method of the object that may raise. *)
Definition call {A : Type} (f : DSMCSimulation -> DSMCSimulation * res A)
    : M A :=
  fun w => let (self', r) := f (fst w) in ((self', snd w), r).

(** A computation that only reads the object. *)
Definition of_res {A : Type} (r : res A) : M A := fun w => (w, r).

(** The next record of draws; the generator moves on. *)
Definition next_draws : M draws :=
  fun w => ((fst w, fun k => snd w (S k)), Ok (snd w 0%nat)).

Fixpoint for_each {A : Type} (l : list A) (body : A -> M unit) : M unit :=
  match l with
  | [] => ret tt
  | x :: l' => body x ;;; for_each l' body
  end.

Fixpoint repeat_M (n : nat) (body : M unit) : M unit :=
  match n with
  | O => ret tt
  | S n' => body ;;; repeat_M n' body
  end.

(** ** The collision phase of a step *)

(** [np.random.choice(cell_particles, 2, replace=False)]: two entries at
    distinct positions of the list.  The two natural numbers of the draw are
    folded onto a first position and a different second one, so that every
    ordered pair of distinct positions is the image of some draw. *)
Definition choice_positions (n : nat) (d : draws) : nat * nat :=
  let p1 := (choice1 d mod n)%nat in
  let p2 := ((p1 + 1 + choice2 d mod (n - 1)) mod n)%nat in
  (p1, p2).

Definition np_random_choice2 (cell_particles : list nat) (d : draws)
    : nat * nat :=
  let '(p1, p2) := choice_positions (length cell_particles) d in
  (nth p1 cell_particles 0%nat, nth p2 cell_particles 0%nat).

(** [n_candidate_pairs] of a cell. *)
Definition n_candidate_pairs (self : DSMCSimulation) (n_cell_particles : nat)
    (max_rel_velocity : R) : Z :=
  py_int (coeff self * IZR (Z.of_nat n_cell_particles)
          * IZR (Z.of_nat n_cell_particles - 1) * max_rel_velocity).

(** One candidate collision. *)
Definition collision_attempt (cell_particles : list nat)
    (max_rel_velocity : R) : M unit :=
  d <- next_draws ;;
  let '(idx1, idx2) := np_random_choice2 cell_particles d in
  call (fun self => perform_collision self idx1 idx2 max_rel_velocity d).

(** The body of the loop over cells in [dsmc_step]. *)
Definition collide_cell (cell_particles : list nat) : M unit :=
  let n_cell_particles := length cell_particles in
  if (n_cell_particles <? 2)%nat then ret tt
  else
    self <- get_self ;;
    max_rel_velocity <-
      of_res (max_relative_velocity_in_cell self cell_particles) ;;
    repeat_M
      (Z.to_nat (n_candidate_pairs self n_cell_particles max_rel_velocity))
      (collision_attempt cell_particles max_rel_velocity).

(** The cell at [(i, j, k)], for loop indices within [range(n_cells)]. *)
Definition get_cell (self : DSMCSimulation) (i j k : nat) : list nat :=
  cells self (Z.of_nat i, Z.of_nat j, Z.of_nat k).

Definition dsmc_step : M unit :=
  modify update_positions ;;;
  call assign_to_cells ;;;
  self <- get_self ;;
  for_each (py_range (n_cells self)) (fun i =>
    for_each (py_range (n_cells self)) (fun j =>
      for_each (py_range (n_cells self)) (fun k =>
        self <- get_self ;;
        collide_cell (get_cell self i j k)))).

(** ** The main loop *)

Definition record_energies (self : DSMCSimulation) : DSMCSimulation :=
  let '(total_kinetic_energy, total_rotational_energy, total_energy) :=
    calculate_total_energy self in
  let self :=
    set_translational_energy_history
      (translational_energy_history self ++ [total_kinetic_energy]) self in
  let self :=
    set_rotational_energy_history
      (rotational_energy_history self ++ [total_rotational_energy]) self in
  set_total_energy_history (total_energy_history self ++ [total_energy]) self.

(** The first [steps] iterations of the loop of [run_simulation]. *)
Definition run_steps (steps : nat) : M unit :=
  repeat_M steps (dsmc_step ;;; modify record_energies).

Definition run_simulation : M unit :=
  modify (set_translational_energy_history []) ;;;
  modify (set_rotational_energy_history []) ;;;
  self <- get_self ;;
  run_steps (Z.to_nat (n_steps self)).

(** ** Construction *)

Module Args.

(** The arguments of [DSMCSimulation.__init__].  [n_particles], [n_steps]
    and [n_cells] are Python integers, the other numbers Python floats. *)
Record t : Type := mk {
  n_particles : Z;
  n_steps : Z;
  time_step : R;
  use_mdn : bool;
  mdn_model : option predictor;
  T_tr_initial : R;
  T_rot_initial : R;
  Z_r : R;
  domain_size : R;
  n_cells : Z;
  sigma_collision : R
}.

(** The call [DSMCSimulation(n_particles, n_steps)], every other argument
    at its default. *)
Definition defaults (n_particles n_steps : Z) : t :=
  mk n_particles n_steps 1e-6 false None 380 180 245 6.4e-4 10 2.92e-10.

End Args.

(** The draws of the constructor: row [i] of [np.random.rand(n, 3)] and
    row [i] of the standard normal variates behind [np.random.normal]. *)
Record init_draws : Type := mkInitDraws {
  uniform_row : nat -> vec3;
  normal_row : nat -> vec3
}.

(** [initialize_positions]: [np.random.rand(n_particles, 3) * domain_size]. *)
Definition initialize_positions (n_particles : Z) (domain_size : R)
    (g : init_draws) : list vec3 :=
  map (fun i => vscale domain_size (uniform_row g i)) (py_range n_particles).

(** [initialize_velocities(T)]: normal variates of mean 0 and standard
    deviation [sqrt(k_B * T / m_H2)]. *)
Definition initialize_velocities (n_particles : Z) (T : R) (g : init_draws)
    : list vec3 :=
  map (fun i => vscale (sqrt (k_B * T / m_H2)) (normal_row g i))
    (py_range n_particles).

(** [__init__].  The only failures are those of the arithmetic and of the
    array constructors: a Python division by a zero [Z_r], [n_cells] or
    [n_particles], and a negative array dimension.  A division by the NumPy
    scalar [v_init] does not raise.  The parameter [time_step] is not read.
    The entries of the fresh [cells] array are placeholders that
    [initialize_cells] replaces before any use; they are modelled as empty
    lists. *)
Definition init (a : Args.t) (g : init_draws) : res DSMCSimulation :=
  if Req_dec_T (Args.Z_r a) 0 then Raise ZeroDivisionError else
  let p_inelastic := 1 - 1 / Args.Z_r a in
  let v_init := sqrt (3 * k_B * Args.T_tr_initial a / m_H2) in
  if (Args.n_cells a =? 0)%Z then Raise ZeroDivisionError else
  let time_step :=
    0.2 * (Args.domain_size a / IZR (Args.n_cells a)) / v_init in
  if (Args.n_particles a =? 0)%Z then Raise ZeroDivisionError else
  let eff_num :=
    density / m_H2 * Args.domain_size a ^ 3 / IZR (Args.n_particles a) in
  let coeff :=
    0.5 * eff_num * PI * Args.sigma_collision a ^ 2 * time_step
    / (Args.domain_size a ^ 3 / IZR (Args.n_cells a)) in
  if (Args.n_particles a <? 0)%Z then Raise ValueError else
  let positions :=
    initialize_positions (Args.n_particles a) (Args.domain_size a) g in
  let velocities :=
    initialize_velocities (Args.n_particles a) (Args.T_tr_initial a) g in
  let rotational_energy :=
    replicate (Z.to_nat (Args.n_particles a))
      (0.5 * k_B * Args.T_rot_initial a * 1) in
  if (Args.n_cells a <? 0)%Z then Raise ValueError else
  let cell_size := Args.domain_size a / IZR (Args.n_cells a) in
  let volume_cell := cell_size ^ 3 in
  Ok (mkSim (Args.n_particles a) (Args.n_steps a) (Args.T_tr_initial a)
        (Args.T_rot_initial a) (Args.Z_r a) p_inelastic (Args.domain_size a)
        (Args.n_cells a) (Args.sigma_collision a) v_init time_step eff_num
        coeff (Args.use_mdn a) (Args.mdn_model a) positions velocities
        rotational_energy (fun _ => []) cell_size volume_cell [] [] []
        0%nat 0%nat 0%nat).

(** ** Predicates on states *)

(** Every rotational energy is non-negative. *)
Definition rot_nonneg (self : DSMCSimulation) : Prop :=
  Forall (fun e => 0 <= e) (rotational_energy self).

(** A position inside the periodic box. *)
Definition in_domain (self : DSMCSimulation) (p : vec3) : Prop :=
  0 <= vx p < domain_size self /\
  0 <= vy p < domain_size self /\
  0 <= vz p < domain_size self.

(** The shape of the object that [__init__] builds: one row per particle in
    each of the three arrays, and the cell size derived from the box. *)
Definition well_formed (self : DSMCSimulation) : Prop :=
  length (positions self) = Z.to_nat (n_particles self) /\
  length (velocities self) = Z.to_nat (n_particles self) /\
  length (rotational_energy self) = Z.to_nat (n_particles self) /\
  cell_size self = domain_size self / IZR (n_cells self).

(** The number of collision attempts counted so far. *)
Definition attempts (self : DSMCSimulation) : nat :=
  (elastic_collisions self + inelastic_collisions self
   + rejected_collisions self)%nat.

(** What a collision leaves alone: everything but the velocities, the
    rotational energies and the three counters. *)
Definition collision_frame (self self' : DSMCSimulation) : Prop :=
  n_particles self' = n_particles self /\
  n_steps self' = n_steps self /\
  p_inelastic self' = p_inelastic self /\
  domain_size self' = domain_size self /\
  n_cells self' = n_cells self /\
  time_step self' = time_step self /\
  coeff self' = coeff self /\
  positions self' = positions self /\
  cells self' = cells self /\
  cell_size self' = cell_size self /\
  length (velocities self') = length (velocities self) /\
  length (rotational_energy self') = length (rotational_energy self).

(** Every index stored in a cell list names a particle. *)
Definition cell_ok (self : DSMCSimulation) (cell_particles : list nat)
    : Prop :=
  Forall (fun i => (i < length (velocities self))%nat) cell_particles.

(** Specifications of monadic computations: from a world satisfying [P],
    a normal return satisfies [Q] and an exception leaves a world
    satisfying [E]. *)
Definition hoare {A : Type} (P : world -> Prop) (m : M A)
    (Q : A -> world -> Prop) (E : exn -> world -> Prop) : Prop :=
  forall w, P w ->
    match m w with
    | (w', Ok a) => Q a w'
    | (w', Raise e) => E e w'
    end.

(** A property of the world that a computation keeps, however it ends. *)
Definition preserves {A : Type} (I : world -> Prop) (m : M A) : Prop :=
  hoare I m (fun _ => I) (fun _ => I).

(** The generator only returns what [np.random] can return. *)
Definition valid_rng (g : rng) : Prop := forall k, valid_draws (g k).

(** The generator after [n] records have been taken. *)
Definition advance (n : nat) (g : rng) : rng := fun k => g (n + k)%nat.

(** Physical constants with which every division of a run is by a non-zero
    number and every square root is of a non-negative one, so that the
    arithmetic model is exact along the run. *)
Definition physical (a : Args.t) : Prop :=
  0 < Args.T_tr_initial a /\ 0 <= Args.T_rot_initial a /\
  0 < Args.domain_size a.

(** The configurations that section 7 of the specification calls invalid. *)
Definition invalid_configuration (a : Args.t) : Prop :=
  (Args.n_particles a <= 0)%Z \/ (Args.n_steps a <= 0)%Z \/
  Args.T_tr_initial a <= 0 \/ Args.T_rot_initial a <= 0 \/
  Args.domain_size a <= 0 \/ Args.sigma_collision a <= 0 \/
  Args.Z_r a <= 1 \/
  (Args.use_mdn a = true /\ Args.mdn_model a = None).

(** ** Invariants used in the proofs *)

(** The invariant behind the non-negativity of the rotational energies:
    it holds of the object and of the draws still to come. *)
Definition rot_inv (w : world) : Prop := rot_nonneg w.1 /\ valid_rng w.2.

(** The box of side [L] and the positions inside it. *)
Definition box_inv (L : R) (w : world) : Prop :=
  domain_size w.1 = L /\ 0 < L /\ Forall (in_domain w.1) (positions w.1).

(** The state of the loop over candidate pairs after [k] attempts, started
    from the object [self0] and the generator [g0]. *)
Definition attempts_inv (self0 : DSMCSimulation) (g0 : rng) (k : nat)
    (w : world) : Prop :=
  collision_frame self0 w.1 /\
  length (rotational_energy w.1) = length (velocities w.1) /\
  rot_nonneg w.1 /\
  attempts w.1 = (attempts self0 + k)%nat /\
  forall j, w.2 j = g0 (k + j)%nat.

(** What an exception that is not a failed energy check leaves behind. *)
Definition not_assertion (e : exn) (w : world) : Prop :=
  rot_inv w /\ e <> AssertionError.

(** The invariant of a run that never raises. *)
Definition safe_inv (w : world) : Prop :=
  well_formed w.1 /\ rot_nonneg w.1 /\ valid_rng w.2 /\
  0 < domain_size w.1 /\ (1 <= n_cells w.1)%Z /\
  forall key, cell_ok w.1 (cells w.1 key).

(** The invariant of the loop over the candidate pairs of [cell]. *)
Definition safe_cell_inv (cell : list nat) (w : world) : Prop :=
  safe_inv w /\ cell_ok w.1 cell /\ (2 <= length cell)%nat.

(** The specification of exceptions that excludes them all. *)
Definition never (e : exn) (w : world) : Prop := False.

(** The same constructor call with another [time_step] argument. *)
Definition set_time_step_arg (t : R) (a : Args.t) : Args.t :=
  Args.mk (Args.n_particles a) (Args.n_steps a) t (Args.use_mdn a)
    (Args.mdn_model a) (Args.T_tr_initial a) (Args.T_rot_initial a)
    (Args.Z_r a) (Args.domain_size a) (Args.n_cells a)
    (Args.sigma_collision a).

(** ** Concrete inputs *)

(** [DSMCSimulation(1000, 0, use_mdn=True, mdn_model=None, Z_r=0.5)]: no
    step to run, a surrogate requested but absent, and [Z_r <= 1]. *)
Definition rejected_by_spec : Args.t :=
  Args.mk 1000 0 1e-6 true None 380 180 0.5 6.4e-4 10 2.92e-10.

(** Draws for the constructor: every variate is zero. *)
Definition zero_init_draws : init_draws :=
  mkInitDraws (fun _ => V3 0 0 0) (fun _ => V3 0 0 0).

(** Two particles in a unit box with a single cell; the first moves along
    the first axis, the second is at rest. *)
Definition two_particles : DSMCSimulation :=
  mkSim 2 1 380 180 2 0.5 1 1 2.92e-10 1 1 1 1 false None
    [V3 0.5 0.5 0.5; V3 0.25 0.25 0.25]
    [V3 1 0 0; V3 0 0 0]
    [1; 1]
    (fun _ => []) 1 1 [] [] [] 0%nat 0%nat 0%nat.

(** An attempt that is accepted and elastic. *)
Definition elastic_draws : draws := mkDraws 0 0 0 0.75 0.5 0.25 0.25.

(** An attempt that is accepted and inelastic. *)
Definition inelastic_draws : draws := mkDraws 0 0 0 0.25 0.5 0.25 0.25.

(** An attempt that is accepted and inelastic, with a Beta draw of 1: the
    whole energy of the pair becomes translational. *)
Definition full_transfer_draws : draws := mkDraws 0 0 0 0.25 1 0.25 0.25.

(** A surrogate whose [predict] returns [[0, 0]] on every input. *)
Definition constant_model : predictor := fun _ _ _ => (0, 0).

(** A generator that always returns [inelastic_draws]. *)
Definition constant_rng : rng := fun _ => inelastic_draws.

(** ** Binary64 evaluation of the wrap and of the cell index

    In two places rounding changes what the program does and not only the
    last digits of a result: [np.mod] in [update_positions] and [//] in
    [assign_to_cells].  This module evaluates both on IEEE 754 binary64
    numbers, the [float64] of NumPy, with NumPy's algorithm for the floored
    division of floats. *)

Module F64.

Import PrimFloat.
#[local] Set Warnings "-inexact-float".

(** [copysign(0, b)]. *)
Definition copysign0 (b : float) : float :=
  if get_sign b then neg_zero else zero.

(** C's [fmod(x, y)]: the remainder of the division truncated toward zero.
    It has the sign of [x] and is a binary64 number, so no rounding takes
    place. *)
Definition fmod (x y : float) : float :=
  match FloatOps.Prim2SF x, FloatOps.Prim2SF y with
  | SpecFloat.S754_nan, _ | _, SpecFloat.S754_nan => nan
  | SpecFloat.S754_infinity _, _ => nan
  | _, SpecFloat.S754_zero _ => nan
  | SpecFloat.S754_zero _, _ => x
  | SpecFloat.S754_finite _ _ _, SpecFloat.S754_infinity _ => x
  | SpecFloat.S754_finite sx mx ex, SpecFloat.S754_finite _ my ey =>
    let e := Z.min ex ey in
    let r := ((Zpos mx * 2 ^ (ex - e)) mod (Zpos my * 2 ^ (ey - e)))%Z in
    FloatOps.SF2Prim
      (SpecFloat.binary_normalize FloatOps.prec FloatOps.emax
         (if sx then (- r)%Z else r) e sx)
  end.

(** C's [floor(x)]. *)
Definition floor (x : float) : float :=
  match FloatOps.Prim2SF x with
  | SpecFloat.S754_finite s m e =>
    if (0 <=? e)%Z then x
    else
      FloatOps.SF2Prim
        (SpecFloat.binary_normalize FloatOps.prec FloatOps.emax
           ((if s then Zneg m else Zpos m) / 2 ^ (- e))%Z 0 s)
  | _ => x
  end.

(** NumPy's [npy_divmod(a, b)], behind both [np.mod] and [//] on floats:
    the remainder of [fmod] is moved to the sign of [b] by adding [b], and
    the quotient [(a - fmod(a, b)) / b] is snapped to the nearest integer.
    The sum [m + b] is rounded. *)
Definition npy_divmod (a b : float) : float * float :=
  let m := fmod a b in
  if (b =? 0)%float then ((a / b)%float, m)
  else
    let d := ((a - m) / b)%float in
    let '(m, d) :=
      if negb (m =? 0)%float then
        if negb (Bool.eqb (b <? 0)%float (m <? 0)%float)
        then ((m + b)%float, (d - 1)%float)
        else (m, d)
      else (copysign0 b, d) in
    let floordiv :=
      if negb (d =? 0)%float then
        let floordiv := floor d in
        if (0.5 <? d - floordiv)%float then (floordiv + 1)%float
        else floordiv
      else copysign0 (a / b)%float in
    (floordiv, m).

(** [np.mod(a, b)]. *)
Definition np_mod (a b : float) : float := (npy_divmod a b).2.

(** [a // b] on floats. *)
Definition np_floor_divide (a b : float) : float := (npy_divmod a b).1.

(** [x.astype(int)]: truncation toward zero of a number inside the range of
    [int64]; outside it, and on [inf] and [nan], the smallest [int64]. *)
Definition astype_int (x : float) : Z :=
  match FloatOps.Prim2SF x with
  | SpecFloat.S754_finite s m e =>
    let v := (if (0 <=? e)%Z then Zpos m * 2 ^ e
              else Zpos m / 2 ^ (- e))%Z in
    if (2 ^ 63 <=? v)%Z then (- 2 ^ 63)%Z
    else if s then (- v)%Z else v
  | SpecFloat.S754_zero _ => 0%Z
  | _ => (- 2 ^ 63)%Z
  end.

(** The float that Python makes of an integer operand: the nearest one. *)
Definition of_int (n : Z) : float :=
  FloatOps.SF2Prim
    (SpecFloat.binary_normalize FloatOps.prec FloatOps.emax n 0 false).

Record vec3 : Type := V3 { vx : float; vy : float; vz : float }.

Definition vadd (a b : vec3) : vec3 :=
  V3 (vx a + vx b)%float (vy a + vy b)%float (vz a + vz b)%float.

Definition vscale (c : float) (a : vec3) : vec3 :=
  V3 (c * vx a)%float (c * vy a)%float (c * vz a)%float.

Definition vmod (a : vec3) (d : float) : vec3 :=
  V3 (np_mod (vx a) d) (np_mod (vy a) d) (np_mod (vz a) d).

(** The attributes of the object that [update_positions] and
    [assign_to_cells] read or write. *)
Record DSMCSimulation : Type := mkSim {
  n_particles : Z;
  domain_size : float;
  n_cells : Z;
  time_step : float;
  cell_size : float;
  positions : list vec3;
  velocities : list vec3;
  cells : cell_array
}.

Definition set_positions (x : list vec3) (self : DSMCSimulation)
    : DSMCSimulation :=
  mkSim (n_particles self) (domain_size self) (n_cells self)
    (time_step self) (cell_size self) x (velocities self) (cells self).

Definition set_cells (x : cell_array) (self : DSMCSimulation)
    : DSMCSimulation :=
  mkSim (n_particles self) (domain_size self) (n_cells self)
    (time_step self) (cell_size self) (positions self) (velocities self) x.

Definition k_B : float := 1.38e-23%float.
Definition m_H2 : float := 3.34e-26%float.

(** These attributes as [__init__] computes them, for a configuration on
    which it returns; [positions] and [velocities] are the arrays that
    [initialize_positions] and [initialize_velocities] returned. *)
Definition init (n_particles : Z) (T_tr_initial domain_size : float)
    (n_cells : Z) (positions velocities : list vec3) : DSMCSimulation :=
  let v_init := sqrt (3 * k_B * T_tr_initial / m_H2)%float in
  let time_step := (0.2 * (domain_size / of_int n_cells) / v_init)%float in
  mkSim n_particles domain_size n_cells time_step
    (domain_size / of_int n_cells)%float positions velocities (fun _ => []).

(** [update_positions]: every product, sum and remainder is rounded. *)
Definition update_positions (self : DSMCSimulation) : DSMCSimulation :=
  let self :=
    set_positions
      (zip_with (fun p v => vadd p (vscale (time_step self) v))
         (positions self) (velocities self)) self in
  set_positions (map (fun p => vmod p (domain_size self)) (positions self))
    self.

Definition initialize_cells (self : DSMCSimulation) : DSMCSimulation :=
  set_cells (fun _ => []) self.

(** [(position // cell_size).astype(int)] on one axis. *)
Definition cell_index (self : DSMCSimulation) (x : float) : Z :=
  astype_int (np_floor_divide x (cell_size self)).

(** One iteration of the loop of [assign_to_cells]. *)
Definition assign_particle (i : nat) (self : DSMCSimulation)
    : DSMCSimulation * res unit :=
  match positions self !! i with
  | Some p =>
    let x := cell_index self (vx p) in
    let y := cell_index self (vy p) in
    let z := cell_index self (vz p) in
    match np_index (n_cells self) x, np_index (n_cells self) y,
          np_index (n_cells self) z with
    | Some x', Some y', Some z' =>
      (set_cells (cell_append (cells self) (x', y', z') i) self, Ok tt)
    | _, _, _ => (self, Raise IndexError)
    end
  | None => (self, Raise IndexError)
  end.

Fixpoint assign_loop (l : list nat) (self : DSMCSimulation)
    : DSMCSimulation * res unit :=
  match l with
  | [] => (self, Ok tt)
  | i :: l' =>
    match assign_particle i self with
    | (self', Ok _) => assign_loop l' self'
    | (self', Raise e) => (self', Raise e)
    end
  end.

Definition assign_to_cells (self : DSMCSimulation)
    : DSMCSimulation * res unit :=
  let self := initialize_cells self in
  assign_loop (py_range (n_particles self)) self.

(** Whether the three coordinates lie in [[0, domain_size)]. *)
Definition in_domain (self : DSMCSimulation) (p : vec3) : bool :=
  (0 <=? vx p)%float && (vx p <? domain_size self)%float &&
  (0 <=? vy p)%float && (vy p <? domain_size self)%float &&
  (0 <=? vz p)%float && (vz p <? domain_size self)%float.

(** The default box with one particle at the origin that moves slowly in
    the negative [x] direction. *)
Definition at_the_origin : DSMCSimulation :=
  init 1 380 6.4e-4 10 [V3 0 0 0] [V3 (-1e-12) 0 0].

(** The default box with one particle one micrometre from the wall [x = 0]
    that moves toward it at an ordinary thermal speed. *)
Definition near_the_wall : DSMCSimulation :=
  init 1 380 6.4e-4 10 [V3 1e-6 3.2e-4 3.2e-4]
    [V3 (-53.617772271592116) 0 0].

(** The same box cut into 8 cells per axis instead of 10. *)
Definition eight_cells : DSMCSimulation :=
  init 1 380 6.4e-4 8 [V3 1e-6 3.2e-4 3.2e-4]
    [V3 (-42.89421781727369) 0 0].

(** A box of size 1 cut into 3 cells per axis. *)
Definition three_cells : DSMCSimulation :=
  init 1 380 1 3 [V3 0 0.5 0.5] [V3 (-1e-13) 0 0].

End F64.

(** ** Notions used in the further properties *)

(** The cell to which the body of the loop of [assign_to_cells] appends
    particle [i], if the three indices are accepted by the array. *)
Definition particle_cell (self : DSMCSimulation) (i : nat)
    : option (Z * Z * Z) :=
  match positions self !! i with
  | Some p =>
    match np_index (n_cells self) (cell_index self (vx p)),
          np_index (n_cells self) (cell_index self (vy p)),
          np_index (n_cells self) (cell_index self (vz p)) with
    | Some x, Some y, Some z => Some (x, y, z)
    | _, _, _ => None
    end
  | None => None
  end.

(** What [np.random.rand] returns: numbers in [[0, 1)]. *)
Definition valid_init_draws (g : init_draws) : Prop :=
  forall i,
    0 <= vx (uniform_row g i) < 1 /\ 0 <= vy (uniform_row g i) < 1 /\
    0 <= vz (uniform_row g i) < 1.

(** The attributes that [__init__] computes and no method assigns. *)
Definition constants (self : DSMCSimulation) :=
  (n_particles self, n_steps self, T_tr_initial self, T_rot_initial self,
   Z_r self, p_inelastic self, domain_size self, n_cells self,
   sigma_collision self, v_init self, time_step self, eff_num self,
   coeff self, use_mdn self, mdn_model self, cell_size self,
   volume_cell self).

(** The three energy histories. *)
Definition histories (self : DSMCSimulation) :=
  (translational_energy_history self, rotational_energy_history self,
   total_energy_history self).

(** [total_energy] of [calculate_total_energy]. *)
Definition total_energy (self : DSMCSimulation) : R :=
  (calculate_total_energy self).2.

(** The state of a run started from the object [self0] with the generator
    [g0]: nothing has been raised, the constants are those of [self0], every
    record taken from the generator has been counted as one attempt, the
    total energy is that of [self0] and no cell lists a particle twice. *)
Definition run_inv (self0 : DSMCSimulation) (g0 : rng) (w : world) : Prop :=
  safe_inv w /\
  constants w.1 = constants self0 /\
  (exists N : nat,
     attempts w.1 = (attempts self0 + N)%nat /\
     (elastic_collisions self0 <= elastic_collisions w.1)%nat /\
     (inelastic_collisions self0 <= inelastic_collisions w.1)%nat /\
     (rejected_collisions self0 <= rejected_collisions w.1)%nat /\
     forall j, w.2 j = g0 (N + j)%nat) /\
  total_energy w.1 = total_energy self0 /\
  forall key, NoDup (cells w.1 key).

(** The invariant of the loop over the candidate pairs of [cell] in such a
    run, while the histories are [h]. *)
Definition run_cell_inv (self0 : DSMCSimulation) (g0 : rng)
    (h : list R * list R * list R) (cell : list nat) (w : world) : Prop :=
  (run_inv self0 g0 w /\ histories w.1 = h) /\
  cell_ok w.1 cell /\ (2 <= length cell)%nat /\ NoDup cell.

(** The histories after [steps] more steps. *)
Definition histories_extended (self0 : DSMCSimulation) (steps : nat)
    (before after : list R * list R * list R) : Prop :=
  exists ks rs : list R,
    length ks = steps /\ length rs = steps /\
    Forall2 (fun k r => k + r = total_energy self0) ks rs /\
    Forall (fun r => 0 <= r) rs /\
    after = (before.1.1 ++ ks, before.1.2 ++ rs,
             before.2 ++ replicate steps (total_energy self0)).


Arguments np_random_choice2 : simpl never.
(** * Proofs *)

(** ** Arithmetic of three-component arrays *)

Ltac vec_simpl :=
  unfold calculate_relative_velocity, cm_frame_energy, norm, vsum, vsq, vadd,
    vsub, vscale in *; simpl in *.

Lemma vsum_vsq_nonneg (a : vec3) : 0 <= vsum (vsq a).
Proof. destruct a as [x y z]. vec_simpl. nra. Qed.

Lemma norm_nonneg (a : vec3) : 0 <= norm a.
Proof. apply sqrt_pos. Qed.

Lemma unit_vector_sq (u1 u2 : R) : vsum (vsq (random_unit_vector u1 u2)) = 1.
Proof.
  unfold random_unit_vector. vec_simpl.
  set (t := acos (1 - 2 * u1)). set (p := 2 * PI * u2).
  pose proof (sin2_cos2 t) as Ht. pose proof (sin2_cos2 p) as Hp.
  unfold Rsqr in *. nra.
Qed.

Lemma random_unit_vector_norm (u1 u2 : R) : norm (random_unit_vector u1 u2) = 1.
Proof. unfold norm. rewrite unit_vector_sq. apply sqrt_1. Qed.

(** A zero draw never rejects a candidate. *)
Lemma norm_accepts (d : draws) (a : vec3) :
  rand_accept d = 0 -> ~ rand_accept d > norm a / 1.
Proof. intros ->. pose proof (norm_nonneg a). lra. Defined.

Lemma vsum_vsq_vscale (c : R) (a : vec3) :
  vsum (vsq (vscale c a)) = c * c * vsum (vsq a).
Proof. destruct a. vec_simpl. ring. Qed.

Lemma norm_vscale (c : R) (a : vec3) : 0 <= c -> norm (vscale c a) = c * norm a.
Proof.
  intros Hc. unfold norm. rewrite vsum_vsq_vscale.
  rewrite sqrt_mult_alt by nra.
  replace (c * c) with (Rsqr c) by reflexivity. rewrite sqrt_Rsqr by done. done.
Qed.

Lemma np_mod_range (x d : R) : 0 < d -> 0 <= np_mod x d < d.
Proof.
  intros Hd. unfold np_mod.
  pose proof (Zfloor_bound (x / d)) as [Hlo Hhi].
  assert (Hx : x = d * (x / d)) by (field; lra).
  split; nra.
Qed.

Lemma py_int_floor (x : R) : 0 <= x -> py_int x = Zfloor x.
Proof. intros Hx. unfold py_int. destruct (Rle_dec 0 x); [done | lra]. Qed.

(** ** Two successive writes into an array *)

Lemma lookup_two_inserts_1 {A} (l : list A) (i j : nat) (a b x : A) :
  i <> j -> l !! i = Some x ->
  <[j := b]> (<[i := a]> l) !! i = Some a.
Proof.
  intros Hij Hi. rewrite list_lookup_insert_ne by done.
  apply list_lookup_insert_eq. by eapply lookup_lt_Some.
Qed.

Lemma lookup_two_inserts_2 {A} (l : list A) (i j : nat) (a b x : A) :
  l !! j = Some x ->
  <[j := b]> (<[i := a]> l) !! j = Some b.
Proof.
  intros Hj. apply list_lookup_insert_eq. rewrite length_insert.
  by eapply lookup_lt_Some.
Qed.

Lemma vadd_cm_split (cm w : vec3) :
  vadd (vadd cm (vscale 0.5 w)) (vsub cm (vscale 0.5 w)) = vscale 2 cm.
Proof. destruct cm, w. vec_simpl. f_equal; lra. Qed.

Lemma cm_twice (v1 v2 : vec3) : vscale 2 (vscale 0.5 (vadd v1 v2)) = vadd v1 v2.
Proof. destruct v1, v2. vec_simpl. f_equal; lra. Qed.

(** ** Momentum

    Claim C10.  Whatever the outcome of [perform_collision] on two distinct
    particles (rejected, elastic, inelastic, and even when the final energy
    check fails), the sum of the two velocities is the same before and after
    the call; hence so are the centre-of-mass velocity [0.5 * (v1 + v2)] and
    the total momentum [m_H2 * (v1 + v2)].  A rejected attempt leaves the
    whole velocity array as it was. *)
Theorem perform_collision_conserves_momentum
    (self : DSMCSimulation) (idx1 idx2 : nat) (max_rel_velocity : R)
    (d : draws) (v1 v2 : vec3) :
  idx1 <> idx2 ->
  velocities self !! idx1 = Some v1 ->
  velocities self !! idx2 = Some v2 ->
  exists v1' v2',
    velocities (perform_collision self idx1 idx2 max_rel_velocity d).1 !! idx1
      = Some v1' /\
    velocities (perform_collision self idx1 idx2 max_rel_velocity d).1 !! idx2
      = Some v2' /\
    vadd v1' v2' = vadd v1 v2 /\
    vscale 0.5 (vadd v1' v2') = vscale 0.5 (vadd v1 v2) /\
    vscale m_H2 (vadd v1' v2') = vscale m_H2 (vadd v1 v2) /\
    (rand_accept d > norm (vsub v1 v2) / max_rel_velocity ->
     velocities (perform_collision self idx1 idx2 max_rel_velocity d).1
       = velocities self).
Proof.
  intros Hne H1 H2.
  assert (Hsum : forall w, vadd (vadd (vscale 0.5 (vadd v1 v2)) (vscale 0.5 w))
              (vsub (vscale 0.5 (vadd v1 v2)) (vscale 0.5 w)) = vadd v1 v2).
  { intros w. rewrite vadd_cm_split. apply cm_twice. }
  unfold perform_collision. rewrite H1, H2.
  unfold calculate_relative_velocity.
  destruct (Rgt_dec _ _) as [Hrej | Hacc]; simpl.
  { exists v1, v2. by rewrite H1, H2. }
  destruct (Rgt_dec _ _) as [Hel | Hinel]; simpl.
  { eexists _, _. erewrite lookup_two_inserts_1, lookup_two_inserts_2 by done.
    split_and!; try done; by rewrite Hsum. }
  destruct (rotational_energy self !! idx1) as [r1|] eqn:Hr1; simpl;
    [destruct (rotational_energy self !! idx2) as [r2|] eqn:Hr2; simpl|].
  - erewrite lookup_two_inserts_1, lookup_two_inserts_2 by done.
    erewrite lookup_two_inserts_1, lookup_two_inserts_2 by done.
    destruct (np_isclose_dec _ _ _); simpl;
      (eexists _, _;
       erewrite lookup_two_inserts_1, lookup_two_inserts_2 by done;
       split_and!; try done; by rewrite Hsum).
  - exists v1, v2. by rewrite H1, H2.
  - exists v1, v2. by rewrite H1, H2.
Qed.

Lemma m_H2_pos : 0 < m_H2.
Proof. unfold m_H2. lra. Qed.

Lemma half_dec : 0.5 = / 2.
Proof. lra. Qed.

Lemma quarter_dec : 0.25 = / 4.
Proof. lra. Qed.

Lemma vsub_cm_split (cm w : vec3) :
  vsub (vadd cm (vscale 0.5 w)) (vsub cm (vscale 0.5 w)) = w.
Proof. destruct cm, w. vec_simpl. f_equal; lra. Qed.

Lemma vsum_vadd (a b : vec3) : vsum (vadd a b) = vsum a + vsum b.
Proof. destruct a, b. vec_simpl. ring. Qed.

Lemma cm_frame_energy_nonneg (v1 v2 cm : vec3) : 0 <= cm_frame_energy v1 v2 cm.
Proof.
  unfold cm_frame_energy. rewrite vsum_vadd.
  pose proof m_H2_pos. pose proof (vsum_vsq_nonneg (vsub v1 cm)).
  pose proof (vsum_vsq_nonneg (vsub v2 cm)).
  apply Rmult_le_pos; lra.
Qed.

Lemma cm_frame_energy_split (cm w : vec3) :
  cm_frame_energy (vadd cm (vscale 0.5 w)) (vsub cm (vscale 0.5 w)) cm
  = 0.25 * m_H2 * vsum (vsq w).
Proof. destruct cm, w. vec_simpl. rewrite half_dec, quarter_dec. field. Qed.

Lemma cm_frame_energy_same (cm w : vec3) :
  cm_frame_energy (vsub cm (vscale 0.5 w)) (vsub cm (vscale 0.5 w)) cm
  = 0.25 * m_H2 * vsum (vsq w).
Proof. destruct cm, w. vec_simpl. rewrite half_dec, quarter_dec. field. Qed.

Lemma scattered_energy (E : R) (u1 u2 : R) :
  0 <= E ->
  0.25 * m_H2 *
    vsum (vsq (vscale (sqrt (4 * E / m_H2)) (random_unit_vector u1 u2))) = E.
Proof.
  intros HE. pose proof m_H2_pos as Hm.
  rewrite vsum_vsq_vscale, unit_vector_sq, sqrt_sqrt.
  - rewrite quarter_dec. field. lra.
  - apply Rmult_le_pos; [lra | left; by apply Rinv_0_lt_compat].
Qed.

Lemma np_isclose_refl (a atol : R) : 0 <= atol -> np_isclose a a atol.
Proof.
  intros H. unfold np_isclose. rewrite Rminus_diag, Rabs_R0.
  pose proof (Rabs_pos a). lra.
Qed.

(** ** Elastic collisions

    Claim C2.  An accepted elastic collision of two distinct particles draws
    a direction of unit length, sets the velocities to
    [CM + 0.5 * w] and [CM - 0.5 * w] with [w] the direction scaled by the
    old relative speed, keeps the magnitude of the relative velocity and the
    centre-of-mass velocity, and leaves every rotational energy as it was. *)
Theorem elastic_collision_outcome
    (self : DSMCSimulation) (idx1 idx2 : nat) (max_rel_velocity : R)
    (d : draws) (v1 v2 : vec3) :
  idx1 <> idx2 ->
  velocities self !! idx1 = Some v1 ->
  velocities self !! idx2 = Some v2 ->
  ~ rand_accept d > norm (vsub v1 v2) / max_rel_velocity ->
  rand_type d > p_inelastic self ->
  let self' := (perform_collision self idx1 idx2 max_rel_velocity d).1 in
  let CM := vscale 0.5 (vadd v1 v2) in
  exists direction v1' v2',
    norm direction = 1 /\
    velocities self' !! idx1 = Some v1' /\
    velocities self' !! idx2 = Some v2' /\
    v1' = vadd CM (vscale 0.5 (vscale (norm (vsub v1 v2)) direction)) /\
    v2' = vsub CM (vscale 0.5 (vscale (norm (vsub v1 v2)) direction)) /\
    norm (vsub v1' v2') = norm (vsub v1 v2) /\
    vscale 0.5 (vadd v1' v2') = CM /\
    rotational_energy self' = rotational_energy self /\
    elastic_collisions self' = S (elastic_collisions self) /\
    (perform_collision self idx1 idx2 max_rel_velocity d).2 = Ok tt.
Proof.
  intros Hne H1 H2 Hacc Hel self' CM. subst self' CM.
  unfold perform_collision. rewrite H1, H2.
  unfold calculate_relative_velocity.
  destruct (Rgt_dec _ _) as [? | _]; [done |].
  destruct (Rgt_dec _ _) as [_ | ?]; [| done]. simpl.
  exists (random_unit_vector (rand_theta d) (rand_phi d)).
  eexists _, _.
  erewrite lookup_two_inserts_1, lookup_two_inserts_2 by done.
  split_and!; try done.
  - apply random_unit_vector_norm.
  - rewrite vsub_cm_split, norm_vscale by apply norm_nonneg.
    rewrite random_unit_vector_norm. lra.
  - rewrite vadd_cm_split. destruct v1, v2. vec_simpl. f_equal; lra.
Qed.

(** ** Inelastic collisions *)

(** The inelastic branch on a pair with non-negative rotational energies:
    the energy recomputed after the writes equals the energy before them,
    and the final check passes. *)
Lemma inelastic_collision_core
    (self : DSMCSimulation) (idx1 idx2 : nat) (max_rel_velocity : R)
    (d : draws) (v1 v2 : vec3) (rot1 rot2 : R) :
  velocities self !! idx1 = Some v1 ->
  velocities self !! idx2 = Some v2 ->
  rotational_energy self !! idx1 = Some rot1 ->
  rotational_energy self !! idx2 = Some rot2 ->
  0 <= rot1 -> 0 <= rot2 ->
  0 <= beta_trans d <= 1 ->
  ~ rand_accept d > norm (vsub v1 v2) / max_rel_velocity ->
  ~ rand_type d > p_inelastic self ->
  let self' := (perform_collision self idx1 idx2 max_rel_velocity d).1 in
  let CM := vscale 0.5 (vadd v1 v2) in
  let E_total_pre := cm_frame_energy v1 v2 CM + (rot1 + rot2) in
  exists v1' v2' rot1' rot2',
    velocities self' !! idx1 = Some v1' /\
    velocities self' !! idx2 = Some v2' /\
    rotational_energy self' !! idx1 = Some rot1' /\
    rotational_energy self' !! idx2 = Some rot2' /\
    cm_frame_energy v1' v2' CM + (rot1' + rot2') = E_total_pre /\
    inelastic_collisions self' = S (inelastic_collisions self) /\
    (perform_collision self idx1 idx2 max_rel_velocity d).2 = Ok tt.
Proof.
  intros H1 H2 Hr1 Hr2 Hp1 Hp2 Hbeta Hacc Hinel self' CM E_total_pre.
  subst self'. unfold perform_collision. rewrite H1, H2.
  unfold calculate_relative_velocity.
  destruct (Rgt_dec _ _) as [? | _]; [done |].
  destruct (Rgt_dec _ _) as [? | _]; [done |]. simpl.
  rewrite Hr1, Hr2. simpl. fold CM. fold E_total_pre.
  assert (HE : 0 <= E_total_pre * beta_trans d).
  { pose proof (cm_frame_energy_nonneg v1 v2 CM).
    apply Rmult_le_pos; [unfold E_total_pre |]; lra. }
  set (w := vscale _ (random_unit_vector _ _)).
  set (e := (E_total_pre - E_total_pre * beta_trans d) / 2).
  assert (Hw : 0.25 * m_H2 * vsum (vsq w) = E_total_pre * beta_trans d)
    by (by apply scattered_energy).
  assert (Hclose : forall x, x = E_total_pre -> np_isclose E_total_pre x 1e-10).
  { intros x ->. apply np_isclose_refl. lra. }
  destruct (decide (idx1 = idx2)) as [-> | Hne].
  - assert (Hl : forall {A} (l : list A) (a b x : A), l !! idx2 = Some x ->
        <[idx2 := b]> (<[idx2 := a]> l) !! idx2 = Some b).
    { intros A l a b x Hx. eapply lookup_two_inserts_2. done. }
    erewrite !Hl by done.
    assert (Hpost : cm_frame_energy (vsub CM (vscale 0.5 w))
              (vsub CM (vscale 0.5 w)) CM + (e + e) = E_total_pre).
    { rewrite cm_frame_energy_same, Hw. unfold e. lra. }
    destruct (np_isclose_dec _ _ _) as [_ | Hn]; simpl.
    + eexists _, _, _, _. erewrite !Hl by done. split_and!; done.
    + exfalso. apply Hn. by apply Hclose.
  - erewrite !lookup_two_inserts_1, !lookup_two_inserts_2 by done.
    assert (Hpost : cm_frame_energy (vadd CM (vscale 0.5 w))
              (vsub CM (vscale 0.5 w)) CM + (e + e) = E_total_pre).
    { rewrite cm_frame_energy_split, Hw. unfold e. lra. }
    destruct (np_isclose_dec _ _ _) as [_ | Hn]; simpl.
    + eexists _, _, _, _.
      erewrite !lookup_two_inserts_1, !lookup_two_inserts_2 by done.
      split_and!; done.
    + exfalso. apply Hn. by apply Hclose.
Qed.

(** ** Rules for specifications of monadic computations *)

Lemma hoare_ret {A} (P : world -> Prop) (a : A) Q E :
  (forall w, P w -> Q a w) -> hoare P (ret a) Q E.
Proof. intros H w Hw. by apply H. Qed.

Lemma hoare_bind {A B} (P : world -> Prop) (m : M A) (f : A -> M B)
    (R : A -> world -> Prop) Q E :
  hoare P m R E -> (forall a, hoare (R a) (f a) Q E) ->
  hoare P (bind m f) Q E.
Proof.
  intros Hm Hf w Hw. unfold bind. specialize (Hm w Hw).
  destruct (m w) as [w' [a | e]]; [by apply Hf | done].
Qed.

Lemma hoare_weaken {A} (P P' : world -> Prop) (m : M A)
    (Q Q' : A -> world -> Prop) (E E' : exn -> world -> Prop) :
  hoare P' m Q' E' ->
  (forall w, P w -> P' w) -> (forall a w, Q' a w -> Q a w) ->
  (forall e w, E' e w -> E e w) ->
  hoare P m Q E.
Proof.
  intros Hm HP HQ HE w Hw. specialize (Hm w (HP w Hw)).
  destruct (m w) as [w' [a | e]]; auto.
Qed.

Lemma hoare_get_self (P : world -> Prop) E :
  hoare P get_self (fun self w => P w /\ self = w.1) E.
Proof. intros w Hw. simpl. done. Qed.

Lemma hoare_modify (P : world -> Prop) f (Q : unit -> world -> Prop) E :
  (forall w, P w -> Q tt (f w.1, w.2)) -> hoare P (modify f) Q E.
Proof. intros H w Hw. by apply H. Qed.

Lemma hoare_of_res {A} (P : world -> Prop) (r : res A)
    (Q : A -> world -> Prop) (E : exn -> world -> Prop) :
  (forall w, P w -> match r with Ok a => Q a w | Raise e => E e w end) ->
  hoare P (of_res r) Q E.
Proof. intros H w Hw. specialize (H w Hw). unfold of_res. by destruct r. Qed.

Lemma hoare_call {A} (P : world -> Prop)
    (f : DSMCSimulation -> DSMCSimulation * res A)
    (Q : A -> world -> Prop) (E : exn -> world -> Prop) :
  (forall w, P w ->
     match (f w.1).2 with
     | Ok a => Q a ((f w.1).1, w.2)
     | Raise e => E e ((f w.1).1, w.2)
     end) ->
  hoare P (call f) Q E.
Proof.
  intros H w Hw. specialize (H w Hw). unfold call.
  destruct (f w.1) as [self' [a | e]]; done.
Qed.

Lemma hoare_next_draws (P : world -> Prop) E :
  hoare P next_draws
    (fun d w => exists w0, P w0 /\ d = w0.2 0%nat /\ w = (w0.1, advance 1 w0.2))
    E.
Proof. intros w Hw. simpl. exists w. done. Qed.

Lemma hoare_for_each {A} (I : world -> Prop) E (l : list A)
    (body : A -> M unit) :
  (forall x, hoare I (body x) (fun _ => I) E) ->
  hoare I (for_each l body) (fun _ => I) E.
Proof.
  intros Hb. induction l as [| x l IH]; simpl.
  - by apply hoare_ret.
  - by apply (hoare_bind _ _ _ (fun _ => I)).
Qed.

Lemma hoare_repeat_M (I : world -> Prop) E (n : nat) (body : M unit) :
  hoare I body (fun _ => I) E ->
  hoare I (repeat_M n body) (fun _ => I) E.
Proof.
  intros Hb. induction n as [| n IH]; simpl.
  - by apply hoare_ret.
  - by apply (hoare_bind _ _ _ (fun _ => I)).
Qed.

(** The loop over the candidate pairs of one cell, with a loop invariant
    [J] that may mention the cell. *)
Lemma collide_cell_hoare (I J : world -> Prop) E (cell : list nat) :
  (forall w, I w -> (2 <= length cell)%nat ->
     match max_relative_velocity_in_cell w.1 cell with
     | Ok _ => J w
     | Raise e => E e w
     end) ->
  (forall w, J w -> I w) ->
  (forall vmax, hoare J (collision_attempt cell vmax) (fun _ => J) E) ->
  hoare I (collide_cell cell) (fun _ => I) E.
Proof.
  intros Hmax HJI Hatt. unfold collide_cell.
  destruct (Nat.ltb_spec (length cell) 2) as [? | Hlen];
    [by apply hoare_ret |].
  apply (hoare_bind _ _ _ (fun self w => I w /\ self = w.1));
    [apply hoare_get_self | intros self].
  apply (hoare_bind _ _ _ (fun _ => J)).
  - apply hoare_of_res. intros w [Hw Hself]. rewrite Hself. by apply Hmax.
  - intros vmax. eapply hoare_weaken;
      [apply hoare_repeat_M, Hatt | done | intros ? ?; apply HJI | done].
Qed.

(** A step: the transport phase establishes [I], every cell keeps it. *)
Lemma dsmc_step_spec (P I : world -> Prop) E :
  (forall w, P w ->
     match (assign_to_cells (update_positions w.1)).2 with
     | Ok _ => I ((assign_to_cells (update_positions w.1)).1, w.2)
     | Raise e => E e ((assign_to_cells (update_positions w.1)).1, w.2)
     end) ->
  (forall i j k,
     hoare I (self <- get_self ;; collide_cell (get_cell self i j k))
       (fun _ => I) E) ->
  hoare P dsmc_step (fun _ => I) E.
Proof.
  intros Htransport Hcell. unfold dsmc_step.
  apply (hoare_bind _ _ _
           (fun _ w => exists w0, P w0 /\ w = (update_positions w0.1, w0.2))).
  { apply hoare_modify. intros w Hw. by exists w. }
  intros _. apply (hoare_bind _ _ _ (fun _ => I)).
  { apply hoare_call. intros w (w0 & Hw0 & ->). cbn [fst snd].
    by apply Htransport. }
  intros _. apply (hoare_bind _ _ _ (fun _ => I)).
  { eapply hoare_weaken;
      [apply hoare_get_self | done | by intros ? ? [] | done]. }
  intros self. do 3 (apply hoare_for_each; intros ?). apply Hcell.
Qed.

Lemma run_steps_spec (P I : world -> Prop) E (steps : nat) :
  (forall w, P w -> I w) ->
  hoare I dsmc_step (fun _ => I) E ->
  (forall w, I w -> I (record_energies w.1, w.2)) ->
  hoare P (run_steps steps) (fun _ => I) E.
Proof.
  intros HPI Hstep Hrec.
  apply (hoare_weaken P I _ (fun _ => I) (fun _ => I) E E);
    [| exact HPI | done | done].
  apply hoare_repeat_M. apply (hoare_bind _ _ _ (fun _ => I)); [done |].
  intros _. by apply hoare_modify.
Qed.

(** The same rules for a property kept however the computation ends. *)

Lemma preserves_ret {A} I (a : A) : preserves I (ret a).
Proof. by apply hoare_ret. Qed.

Lemma preserves_bind {A B} I (m : M A) (f : A -> M B) :
  preserves I m -> (forall a, preserves I (f a)) -> preserves I (bind m f).
Proof. intros Hm Hf. eapply hoare_bind; [exact Hm | exact Hf]. Qed.

Lemma preserves_for_each {A} I (l : list A) (body : A -> M unit) :
  (forall x, preserves I (body x)) -> preserves I (for_each l body).
Proof. apply hoare_for_each. Qed.

Lemma preserves_repeat_M I (n : nat) (body : M unit) :
  preserves I body -> preserves I (repeat_M n body).
Proof. apply hoare_repeat_M. Qed.

Lemma preserves_get_self I : preserves I get_self.
Proof. intros w Hw. done. Qed.

Lemma preserves_of_res {A} I (r : res A) : preserves I (of_res r).
Proof. intros w Hw. unfold of_res. by destruct r. Qed.

Lemma preserves_modify I f :
  (forall w, I w -> I (f w.1, w.2)) -> preserves I (modify f).
Proof. intros H. by apply hoare_modify. Qed.

Lemma preserves_call {A} I (f : DSMCSimulation -> DSMCSimulation * res A) :
  (forall w, I w -> I ((f w.1).1, w.2)) -> preserves I (call f).
Proof.
  intros H. apply hoare_call. intros w Hw. specialize (H w Hw).
  by destruct (f w.1).2.
Qed.

Lemma preserves_final {A} I (m : M A) w : preserves I m -> I w -> I (m w).1.
Proof.
  intros Hm Hw. specialize (Hm w Hw). by destruct (m w) as [w' [a | e]].
Qed.

(** ** What a collision keeps *)

Lemma redistributed_rot_nonneg (E f : R) :
  0 <= E -> 0 <= f <= 1 -> 0 <= (E - E * f) / 2.
Proof.
  intros HE Hf. assert (0 <= E * (1 - f)) by (apply Rmult_le_pos; lra). lra.
Qed.

Lemma perform_collision_rot_nonneg
    (self : DSMCSimulation) (idx1 idx2 : nat) (max_rel_velocity : R)
    (d : draws) :
  rot_nonneg self -> 0 <= beta_trans d <= 1 ->
  rot_nonneg (perform_collision self idx1 idx2 max_rel_velocity d).1.
Proof.
  intros Hrot Hbeta. unfold perform_collision.
  destruct (velocities self !! idx1) as [v1|]; [| done].
  destruct (velocities self !! idx2) as [v2|]; [| done].
  destruct (Rgt_dec _ _); [done |].
  destruct (Rgt_dec _ _); [done |]. simpl.
  destruct (rotational_energy self !! idx1) as [r1|] eqn:Hr1; [| done].
  destruct (rotational_energy self !! idx2) as [r2|] eqn:Hr2; [| done].
  simpl.
  assert (Hnew : rot_nonneg
            (set_rotational_energy
               (<[idx2 := (cm_frame_energy v1 v2 (vscale 0.5 (vadd v1 v2))
                             + (r1 + r2)
                           - (cm_frame_energy v1 v2 (vscale 0.5 (vadd v1 v2))
                              + (r1 + r2)) * beta_trans d) / 2]>
                  (<[idx1 := (cm_frame_energy v1 v2 (vscale 0.5 (vadd v1 v2))
                             + (r1 + r2)
                           - (cm_frame_energy v1 v2 (vscale 0.5 (vadd v1 v2))
                              + (r1 + r2)) * beta_trans d) / 2]>
                     (rotational_energy self))) self)).
  { unfold rot_nonneg in *. simpl.
    pose proof (cm_frame_energy_nonneg v1 v2 (vscale 0.5 (vadd v1 v2))).
    assert (0 <= r1) by (by eapply (Forall_lookup_1 _ _ _ _ Hrot Hr1)).
    assert (0 <= r2) by (by eapply (Forall_lookup_1 _ _ _ _ Hrot Hr2)).
    apply Forall_insert; [apply Forall_insert; [done |] |];
      apply redistributed_rot_nonneg; lra. }
  repeat case_match; exact Hnew.
Qed.

Lemma perform_collision_frame
    (self : DSMCSimulation) (idx1 idx2 : nat) (max_rel_velocity : R)
    (d : draws) :
  collision_frame self (perform_collision self idx1 idx2 max_rel_velocity d).1.
Proof.
  unfold perform_collision, collision_frame.
  repeat case_match; simpl; rewrite ?length_insert; done.
Qed.

Lemma perform_collision_ok
    (self : DSMCSimulation) (idx1 idx2 : nat) (max_rel_velocity : R)
    (d : draws) :
  (idx1 < length (velocities self))%nat ->
  (idx2 < length (velocities self))%nat ->
  length (rotational_energy self) = length (velocities self) ->
  rot_nonneg self -> 0 <= beta_trans d <= 1 ->
  (perform_collision self idx1 idx2 max_rel_velocity d).2 = Ok tt /\
  attempts (perform_collision self idx1 idx2 max_rel_velocity d).1
    = S (attempts self).
Proof.
  intros H1 H2 Hlen Hrot Hbeta.
  destruct (lookup_lt_is_Some_2 _ _ H1) as [v1 Hv1].
  destruct (lookup_lt_is_Some_2 _ _ H2) as [v2 Hv2].
  rewrite <- Hlen in H1, H2.
  destruct (lookup_lt_is_Some_2 _ _ H1) as [r1 Hr1].
  destruct (lookup_lt_is_Some_2 _ _ H2) as [r2 Hr2].
  destruct (Rgt_dec (rand_accept d) (norm (vsub v1 v2) / max_rel_velocity))
    as [Hrej | Hacc].
  { unfold perform_collision. rewrite Hv1, Hv2.
    unfold calculate_relative_velocity.
    destruct (Rgt_dec _ _); [| done]. simpl. split; [done |].
    unfold attempts. simpl. lia. }
  destruct (Rgt_dec (rand_type d) (p_inelastic self)) as [Hel | Hinel].
  { unfold perform_collision. rewrite Hv1, Hv2.
    unfold calculate_relative_velocity.
    destruct (Rgt_dec _ _); [done |].
    destruct (Rgt_dec _ _); [| done]. simpl. split; [done |].
    unfold attempts. simpl. lia. }
  assert (0 <= r1) by (by eapply (Forall_lookup_1 _ _ _ _ Hrot Hr1)).
  assert (0 <= r2) by (by eapply (Forall_lookup_1 _ _ _ _ Hrot Hr2)).
  destruct (inelastic_collision_core self idx1 idx2
              max_rel_velocity d v1 v2 r1 r2)
    as (? & ? & ? & ? & _ & _ & _ & _ & _ & Hcount & Hres); try done.
  split; [done |].
  pose proof (perform_collision_frame self idx1 idx2 max_rel_velocity d).
  revert Hcount. unfold perform_collision. rewrite Hv1, Hv2.
  unfold calculate_relative_velocity.
  destruct (Rgt_dec _ _); [done |].
  destruct (Rgt_dec _ _); [done |]. simpl. rewrite Hr1, Hr2. simpl.
  repeat case_match; unfold attempts; simpl; lia.
Qed.

(** ** Non-negative rotational energies *)

(** What the cell assignment leaves alone. *)
Lemma assign_particle_frame (i : nat) (self : DSMCSimulation) :
  positions (assign_particle i self).1 = positions self /\
  velocities (assign_particle i self).1 = velocities self /\
  rotational_energy (assign_particle i self).1 = rotational_energy self /\
  domain_size (assign_particle i self).1 = domain_size self /\
  n_cells (assign_particle i self).1 = n_cells self /\
  cell_size (assign_particle i self).1 = cell_size self /\
  n_particles (assign_particle i self).1 = n_particles self /\
  coeff (assign_particle i self).1 = coeff self.
Proof. unfold assign_particle. repeat case_match; done. Qed.

Lemma assign_loop_frame (l : list nat) (self : DSMCSimulation) :
  positions (assign_loop l self).1 = positions self /\
  velocities (assign_loop l self).1 = velocities self /\
  rotational_energy (assign_loop l self).1 = rotational_energy self /\
  domain_size (assign_loop l self).1 = domain_size self /\
  n_cells (assign_loop l self).1 = n_cells self /\
  cell_size (assign_loop l self).1 = cell_size self /\
  n_particles (assign_loop l self).1 = n_particles self /\
  coeff (assign_loop l self).1 = coeff self.
Proof.
  revert self. induction l as [| i l IH]; intros self; simpl; [done |].
  pose proof (assign_particle_frame i self) as Hf.
  destruct (assign_particle i self) as [self' [[] | e]]; simpl in *; [| done].
  destruct (IH self') as (-> & -> & -> & -> & -> & -> & -> & ->). done.
Qed.

Lemma assign_to_cells_frame (self : DSMCSimulation) :
  positions (assign_to_cells self).1 = positions self /\
  velocities (assign_to_cells self).1 = velocities self /\
  rotational_energy (assign_to_cells self).1 = rotational_energy self /\
  domain_size (assign_to_cells self).1 = domain_size self /\
  n_cells (assign_to_cells self).1 = n_cells self /\
  cell_size (assign_to_cells self).1 = cell_size self /\
  n_particles (assign_to_cells self).1 = n_particles self /\
  coeff (assign_to_cells self).1 = coeff self.
Proof.
  exact (assign_loop_frame (py_range (n_particles self))
           (initialize_cells self)).
Qed.

Lemma valid_rng_advance (n : nat) (g : rng) :
  valid_rng g -> valid_rng (advance n g).
Proof. intros Hg k. apply Hg. Qed.

Lemma collision_attempt_unfold (cell : list nat) (vmax : R) (w : world) :
  collision_attempt cell vmax w =
  let d := w.2 0%nat in
  let r := perform_collision w.1 (np_random_choice2 cell d).1
             (np_random_choice2 cell d).2 vmax d in
  ((r.1, advance 1 w.2), r.2).
Proof.
  unfold collision_attempt, bind, next_draws, call. simpl.
  destruct (np_random_choice2 cell (w.2 0%nat)) as [i j]. simpl.
  by destruct (perform_collision _ _ _ _ _).
Qed.

Lemma collision_attempt_rot_inv (cell : list nat) (vmax : R) :
  preserves rot_inv (collision_attempt cell vmax).
Proof.
  intros w [Hrot Hg]. rewrite collision_attempt_unfold. simpl.
  assert (rot_inv
    ((perform_collision w.1 (np_random_choice2 cell (w.2 0%nat)).1
        (np_random_choice2 cell (w.2 0%nat)).2 vmax (w.2 0%nat)).1,
     advance 1 w.2)) as HI.
  { split; simpl.
    - apply perform_collision_rot_nonneg; [done | apply Hg].
    - by apply valid_rng_advance. }
  by destruct (perform_collision _ _ _ _ _).2.
Qed.

Lemma collide_cell_preserves I (cell : list nat) :
  (forall vmax, preserves I (collision_attempt cell vmax)) ->
  preserves I (collide_cell cell).
Proof.
  intros Hatt. apply (collide_cell_hoare I I); [| done | exact Hatt].
  intros w Hw _. by destruct (max_relative_velocity_in_cell w.1 cell).
Qed.

Lemma dsmc_step_hoare (P I : world -> Prop) :
  (forall w, P w -> I (update_positions w.1, w.2)) ->
  (forall w, I w -> I ((assign_to_cells w.1).1, w.2)) ->
  (forall cell vmax, preserves I (collision_attempt cell vmax)) ->
  hoare P dsmc_step (fun _ => I) (fun _ => I).
Proof.
  intros Hup Hassign Hatt. apply dsmc_step_spec.
  - intros w Hw. specialize (Hassign _ (Hup w Hw)). cbn [fst snd] in Hassign.
    by destruct (assign_to_cells (update_positions w.1)).2.
  - intros i j k.
    apply preserves_bind; [apply preserves_get_self | intros self].
    by apply collide_cell_preserves.
Qed.

Lemma run_steps_preserves I (steps : nat) :
  (forall w, I w -> I (update_positions w.1, w.2)) ->
  (forall w, I w -> I ((assign_to_cells w.1).1, w.2)) ->
  (forall cell vmax, preserves I (collision_attempt cell vmax)) ->
  (forall w, I w -> I (record_energies w.1, w.2)) ->
  preserves I (run_steps steps).
Proof.
  intros Hup Hassign Hatt Hrec.
  apply run_steps_spec; [done | by apply dsmc_step_hoare | done].
Qed.

Lemma run_steps_rot_inv (steps : nat) : preserves rot_inv (run_steps steps).
Proof.
  apply run_steps_preserves.
  - intros w [Hrot Hg]. done.
  - intros w [Hrot Hg]. split; [| done]. unfold rot_nonneg. simpl.
    by destruct (assign_to_cells_frame w.1) as (_ & _ & -> & _).
  - apply collision_attempt_rot_inv.
  - intros w [Hrot Hg]. done.
Qed.

Lemma init_rot_nonneg (a : Args.t) (g0 : init_draws) (self : DSMCSimulation) :
  0 <= Args.T_rot_initial a -> init a g0 = Ok self -> rot_nonneg self.
Proof.
  intros HT. unfold init. repeat case_match; try done.
  intros [= <-]. unfold rot_nonneg. simpl. apply Forall_replicate.
  unfold k_B. nra.
Qed.

(** Claim C6.  The rotational energies are non-negative in the object that
    [__init__] builds from [T_rot_initial >= 0], where each is
    [0.5 * k_B * T_rot_initial], after any number of steps of the main loop,
    at the end of [run_simulation], and across every single call of
    [perform_collision] whose Beta draw lies in [[0, 1]]. *)
Theorem rotational_energy_never_negative
    (a : Args.t) (g0 : init_draws) (g : rng) (self0 : DSMCSimulation) :
  physical a ->
  init a g0 = Ok self0 ->
  valid_rng g ->
  rot_nonneg self0 /\
  Forall (fun e => e = 0.5 * k_B * Args.T_rot_initial a * 1)
    (rotational_energy self0) /\
  (forall steps, rot_nonneg (run_steps steps (self0, g)).1.1) /\
  rot_nonneg (run_simulation (self0, g)).1.1 /\
  (forall self idx1 idx2 max_rel_velocity d,
     rot_nonneg self -> 0 <= beta_trans d <= 1 ->
     rot_nonneg (perform_collision self idx1 idx2 max_rel_velocity d).1).
Proof.
  intros (_ & HT & _) Hinit Hg.
  assert (H0 : rot_nonneg self0) by (by eapply init_rot_nonneg).
  split_and!; [done | | | | ].
  - revert Hinit. unfold init. repeat case_match; try done.
    intros [= <-]. simpl. by apply Forall_replicate.
  - intros steps.
    by apply (preserves_final rot_inv _ (self0, g) (run_steps_rot_inv steps)).
  - unfold run_simulation, bind. simpl.
    apply (preserves_final rot_inv (run_steps _) _ (run_steps_rot_inv _)).
    done.
  - intros. by apply perform_collision_rot_nonneg.
Qed.

(** ** Periodic positions *)

Lemma vmod_in_domain (self : DSMCSimulation) (p : vec3) :
  0 < domain_size self -> in_domain self (vmod p (domain_size self)).
Proof.
  intros Hd. unfold in_domain, vmod. simpl.
  split_and!; by apply np_mod_range.
Qed.

Lemma update_positions_eq (self : DSMCSimulation) :
  positions (update_positions self) =
  map (fun p => vmod p (domain_size self))
    (zip_with (fun p v => vadd p (vscale (time_step self) v))
       (positions self) (velocities self)).
Proof. reflexivity. Qed.

Lemma update_positions_in_domain (self : DSMCSimulation) :
  0 < domain_size self ->
  Forall (in_domain self) (positions (update_positions self)).
Proof.
  intros Hd. rewrite update_positions_eq. apply Forall_map, Forall_forall.
  intros p _. by apply vmod_in_domain.
Qed.

Lemma in_domain_ext (self self' : DSMCSimulation) (l : list vec3) :
  domain_size self' = domain_size self ->
  Forall (in_domain self) l -> Forall (in_domain self') l.
Proof. intros Hd. unfold in_domain. by rewrite Hd. Qed.

Lemma collision_attempt_box_inv (L : R) (cell : list nat) (vmax : R) :
  preserves (box_inv L) (collision_attempt cell vmax).
Proof.
  intros w (Hd & HL & Hpos). rewrite collision_attempt_unfold. simpl.
  destruct (perform_collision_frame w.1
              (np_random_choice2 cell (w.2 0%nat)).1
              (np_random_choice2 cell (w.2 0%nat)).2 vmax (w.2 0%nat))
    as (_ & _ & _ & Hd' & _ & _ & _ & Hp' & _).
  destruct (perform_collision _ _ _ _ _) as [self' r]. simpl in *.
  assert (box_inv L (self', advance 1 w.2)) as HI.
  { unfold box_inv. simpl. rewrite Hp', Hd'.
    split_and!; [done | done |]. by eapply in_domain_ext. }
  by destruct r.
Qed.

Lemma box_inv_update (L : R) (w : world) :
  domain_size w.1 = L -> 0 < L -> box_inv L (update_positions w.1, w.2).
Proof.
  intros Hd HL. split_and!; [done | done |]. simpl.
  eapply in_domain_ext, update_positions_in_domain; [done | by rewrite Hd].
Qed.

Lemma box_inv_assign (L : R) (w : world) :
  box_inv L w -> box_inv L ((assign_to_cells w.1).1, w.2).
Proof.
  intros (Hd & HL & Hpos).
  destruct (assign_to_cells_frame w.1) as (Hp' & _ & _ & Hd' & _).
  unfold box_inv. simpl. rewrite Hp', Hd'. split_and!; [done | done |].
  by eapply in_domain_ext.
Qed.

Lemma dsmc_step_box (L : R) :
  hoare (fun w => domain_size w.1 = L /\ 0 < L) dsmc_step
    (fun _ => box_inv L) (fun _ => box_inv L).
Proof.
  apply dsmc_step_hoare.
  - intros w [Hd HL]. by apply box_inv_update.
  - apply box_inv_assign.
  - apply collision_attempt_box_inv.
Qed.

Lemma box_inv_weaken (L : R) (w : world) :
  box_inv L w -> domain_size w.1 = L /\ 0 < L.
Proof. by intros (? & ? & _). Qed.

Lemma run_steps_box (L : R) (steps : nat) :
  hoare (fun w => domain_size w.1 = L /\ 0 < L) (run_steps (S steps))
    (fun _ => box_inv L) (fun _ => box_inv L).
Proof.
  induction steps as [| n IH].
  - unfold run_steps. simpl.
    apply (hoare_bind _ _ _ (fun _ => box_inv L));
      [| intros []; by apply hoare_ret].
    apply (hoare_bind _ _ _ (fun _ => box_inv L));
      [apply dsmc_step_box | intros _].
    apply hoare_modify. intros w H. exact H.
  - change (run_steps (S (S n)))
      with (bind (dsmc_step ;;; modify record_energies)
              (fun _ => run_steps (S n))).
    apply (hoare_bind _ _ _ (fun _ => box_inv L));
      [| intros _; eapply hoare_weaken;
           [exact IH | apply box_inv_weaken | done | done]].
    apply (hoare_bind _ _ _ (fun _ => box_inv L));
      [apply dsmc_step_box | intros _].
    apply hoare_modify. intros w H. exact H.
Qed.

Lemma hoare_final {A} (P I : world -> Prop) (m : M A) (w : world) :
  hoare P m (fun _ => I) (fun _ => I) -> P w -> I (m w).1.
Proof.
  intros Hm Hw. specialize (Hm w Hw). by destruct (m w) as [w' [a | e]].
Qed.

(** Claim C5 (a defect of the code).  [update_positions] wraps with
    [np.mod], and the binary64 result of [np.mod] for a coordinate just
    below zero is the box length itself: the remainder of [fmod] is the
    coordinate, the box length is added to it, and the sum rounds to the
    box length.  From a state whose every coordinate lies in
    [[0, domain_size)], one call of [update_positions] leaves the [x]
    coordinate of the particle equal to [domain_size], outside
    [[0, domain_size)]: for a particle at the origin that moves at
    [-1e-12], and for a particle one micrometre from the wall that moves
    at [-53.6], both in the default box. *)
Theorem update_positions_reaches_domain_size :
  forallb (F64.in_domain F64.at_the_origin) (F64.positions F64.at_the_origin)
  = true /\
  map F64.vx (F64.positions (F64.update_positions F64.at_the_origin))
  = [F64.domain_size F64.at_the_origin] /\
  forallb (F64.in_domain F64.at_the_origin)
    (F64.positions (F64.update_positions F64.at_the_origin)) = false /\
  forallb (F64.in_domain F64.near_the_wall) (F64.positions F64.near_the_wall)
  = true /\
  map F64.vx (F64.positions (F64.update_positions F64.near_the_wall))
  = [F64.domain_size F64.near_the_wall] /\
  forallb (F64.in_domain F64.near_the_wall)
    (F64.positions (F64.update_positions F64.near_the_wall)) = false.
Proof.
  split_and!.
  - vm_compute. reflexivity.
  - vm_compute. reflexivity.
  - vm_compute. reflexivity.
  - vm_compute. reflexivity.
  - vm_compute. reflexivity.
  - vm_compute. reflexivity.
Qed.

(** ** Cell coordinates *)

Lemma cell_index_bounds (self : DSMCSimulation) (x : R) :
  0 < domain_size self -> (1 <= n_cells self)%Z ->
  cell_size self = domain_size self / IZR (n_cells self) ->
  0 <= x < domain_size self ->
  (0 <= cell_index self x <= n_cells self - 1)%Z.
Proof.
  intros Hd Hn Hcs [Hx0 Hx1]. unfold cell_index, np_floor_divide.
  rewrite Hcs.
  assert (Hn' : 1 <= IZR (n_cells self)) by (by apply IZR_le).
  assert (Hq : x / (domain_size self / IZR (n_cells self))
               = x * IZR (n_cells self) / domain_size self)
    by (field; lra).
  rewrite Hq.
  set (q := x * IZR (n_cells self) / domain_size self).
  assert (Hq0 : 0 <= q).
  { unfold q. apply Rmult_le_pos; [apply Rmult_le_pos; lra |].
    left. by apply Rinv_0_lt_compat. }
  assert (Hq1 : q < IZR (n_cells self)).
  { unfold q. apply Rmult_lt_reg_r with (domain_size self); [done |].
    replace (x * IZR (n_cells self) / domain_size self * domain_size self)
      with (IZR (n_cells self) * x) by (field; lra).
    apply Rmult_lt_compat_l; lra. }
  pose proof (Zfloor_bound q) as [Hlo Hhi].
  split.
  - by apply (Zfloor_lub 0).
  - assert (IZR (Zfloor q) < IZR (n_cells self)) by lra.
    assert (Zfloor q < n_cells self)%Z by (by apply lt_IZR). lia.
Qed.

Lemma np_index_in_range (n i : Z) :
  (0 <= i <= n - 1)%Z -> np_index n i = Some i.
Proof.
  intros H. unfold np_index.
  destruct (Z.leb_spec 0 i); [| lia]. destruct (Z.ltb_spec i n); [done | lia].
Qed.

Lemma assign_particle_ok (i : nat) (self : DSMCSimulation) (p : vec3) :
  0 < domain_size self -> (1 <= n_cells self)%Z ->
  cell_size self = domain_size self / IZR (n_cells self) ->
  positions self !! i = Some p -> in_domain self p ->
  (assign_particle i self).2 = Ok tt.
Proof.
  intros Hd Hn Hcs Hp (Hx & Hy & Hz). unfold assign_particle. rewrite Hp.
  rewrite !np_index_in_range by (by apply cell_index_bounds). done.
Qed.

Lemma assign_loop_ok (l : list nat) (self : DSMCSimulation) :
  0 < domain_size self -> (1 <= n_cells self)%Z ->
  cell_size self = domain_size self / IZR (n_cells self) ->
  Forall (in_domain self) (positions self) ->
  Forall (fun i => (i < length (positions self))%nat) l ->
  (assign_loop l self).2 = Ok tt.
Proof.
  revert self. induction l as [| i l IH]; intros self Hd Hn Hcs Hpos Hl;
    simpl; [done |].
  apply Forall_cons in Hl as [Hi Hl].
  destruct (lookup_lt_is_Some_2 _ _ Hi) as [p Hp].
  pose proof (assign_particle_ok i self p Hd Hn Hcs Hp
                (Forall_lookup_1 _ _ _ _ Hpos Hp)) as Hok.
  destruct (assign_particle_frame i self)
    as (Hp' & _ & _ & Hd' & Hn' & Hc' & _).
  destruct (assign_particle i self) as [self' [[] | e]]; simpl in *; [| done].
  apply IH; rewrite ?Hd', ?Hn', ?Hc', ?Hp'; try done.
  by eapply in_domain_ext.
Qed.

Lemma py_range_lt (n : Z) (len : nat) :
  len = Z.to_nat n -> Forall (fun i => (i < len)%nat) (py_range n).
Proof.
  intros ->. unfold py_range. apply Forall_forall. intros i Hi.
  apply list_elem_of_In, in_seq in Hi. lia.
Qed.

Lemma assign_to_cells_ok (self : DSMCSimulation) :
  well_formed self -> 0 < domain_size self -> (1 <= n_cells self)%Z ->
  Forall (in_domain self) (positions self) ->
  (assign_to_cells self).2 = Ok tt.
Proof.
  intros (Hlp & _ & _ & Hcs) Hd Hn Hpos. unfold assign_to_cells.
  apply assign_loop_ok; try done. by apply py_range_lt.
Qed.

Lemma update_positions_well_formed (self : DSMCSimulation) :
  well_formed self -> well_formed (update_positions self).
Proof.
  intros (Hlp & Hlv & Hlr & Hcs). unfold well_formed. simpl.
  rewrite length_map, length_zip_with. split_and!; try done. lia.
Qed.

(** ** Candidate pairs of a cell *)

Lemma max_rel_inner_ok (self : DSMCSimulation) (idx1 : nat) (later : list nat)
    (acc : R) :
  (later <> [] -> (idx1 < length (velocities self))%nat) ->
  cell_ok self later ->
  exists m, max_rel_inner self idx1 later acc = Ok m /\ acc <= m.
Proof.
  revert acc. induction later as [| idx2 later IH]; intros acc H1 Hl; simpl.
  - exists acc. split; [done | lra].
  - apply Forall_cons in Hl as [H2 Hl].
    destruct (lookup_lt_is_Some_2 _ _ (H1 ltac:(done))) as [v1 Hv1].
    destruct (lookup_lt_is_Some_2 _ _ H2) as [v2 Hv2].
    rewrite Hv1, Hv2.
    edestruct IH as (m & Hm & Hle); [by intros _; apply H1 | done |].
    exists m. split; [exact Hm |].
    destruct (Rgt_dec _ _); lra.
Qed.

Lemma max_rel_outer_ok (self : DSMCSimulation) (particles : list nat)
    (acc : R) :
  cell_ok self particles ->
  exists m, max_rel_outer self particles acc = Ok m /\ acc <= m.
Proof.
  revert acc. induction particles as [| idx1 later IH]; intros acc Hl; simpl.
  - exists acc. split; [done | lra].
  - apply Forall_cons in Hl as [H1 Hl].
    destruct (max_rel_inner_ok self idx1 later acc) as (m1 & -> & Hle1);
      [done | done |].
    destruct (IH m1 Hl) as (m & Hm & Hle). exists m. split; [done | lra].
Qed.

Lemma max_relative_velocity_in_cell_ok (self : DSMCSimulation)
    (cell : list nat) :
  cell_ok self cell ->
  exists m, max_relative_velocity_in_cell self cell = Ok m /\ 0 <= m.
Proof. apply max_rel_outer_ok. Qed.

Lemma no_candidate_pairs_at_rest (self : DSMCSimulation) (n : nat) :
  n_candidate_pairs self n 0 = 0%Z.
Proof.
  unfold n_candidate_pairs. rewrite Rmult_0_r, py_int_floor by lra.
  apply (ZfloorZ 0).
Qed.

(** The test case of the specification: five particles, a maximum relative
    speed of 100 and [coeff = 1e-5] give no candidate pair. *)
Lemma n_candidate_pairs_example (self : DSMCSimulation) :
  coeff self = 1e-5 -> n_candidate_pairs self 5 100 = 0%Z.
Proof.
  intros Hc. unfold n_candidate_pairs. rewrite Hc.
  change (Z.of_nat 5) with 5%Z. change (5 - 1)%Z with 4%Z.
  rewrite py_int_floor by lra. apply Zfloor_eq. lra.
Qed.

Lemma choice_positions_lt (n : nat) (d : draws) :
  (0 < n)%nat ->
  ((choice_positions n d).1 < n)%nat /\ ((choice_positions n d).2 < n)%nat.
Proof.
  intros Hn. unfold choice_positions. simpl.
  split; apply Nat.mod_upper_bound; lia.
Qed.

Lemma choice_positions_distinct (n : nat) (d : draws) :
  (2 <= n)%nat -> (choice_positions n d).1 <> (choice_positions n d).2.
Proof.
  intros Hn. unfold choice_positions. simpl.
  set (p1 := (choice1 d mod n)%nat). set (k := (choice2 d mod (n - 1))%nat).
  assert (p1 < n)%nat by (apply Nat.mod_upper_bound; lia).
  assert (k < n - 1)%nat by (apply Nat.mod_upper_bound; lia).
  destruct (Nat.lt_ge_cases (p1 + 1 + k) n) as [Hlt | Hge].
  - rewrite Nat.mod_small by done. lia.
  - replace (p1 + 1 + k)%nat with ((p1 + 1 + k - n) + 1 * n)%nat by lia.
    rewrite Nat.Div0.mod_add, Nat.mod_small by lia. lia.
Qed.

Lemma np_random_choice2_ok (self : DSMCSimulation) (cell : list nat)
    (d : draws) :
  cell_ok self cell -> (0 < length cell)%nat ->
  ((np_random_choice2 cell d).1 < length (velocities self))%nat /\
  ((np_random_choice2 cell d).2 < length (velocities self))%nat.
Proof.
  intros Hcell Hn. unfold np_random_choice2.
  destruct (choice_positions_lt (length cell) d Hn) as [H1 H2].
  destruct (choice_positions (length cell) d) as [p1 p2]. simpl in *.
  unfold cell_ok in Hcell. rewrite Forall_forall in Hcell.
  split; apply Hcell, list_elem_of_In, nth_In; done.
Qed.

Lemma collision_frame_refl (self : DSMCSimulation) : collision_frame self self.
Proof. unfold collision_frame. done. Qed.

Lemma collision_frame_trans (a b c : DSMCSimulation) :
  collision_frame a b -> collision_frame b c -> collision_frame a c.
Proof.
  unfold collision_frame. intros Hab Hbc.
  destruct Hab as (?&?&?&?&?&?&?&?&?&?&?&?).
  destruct Hbc as (?&?&?&?&?&?&?&?&?&?&?&?).
  split_and!; congruence.
Qed.

Lemma repeat_attempts (self0 : DSMCSimulation) (g0 : rng) (cell : list nat)
    (vmax : R) (n k : nat) (w : world) :
  valid_rng g0 -> cell_ok self0 cell -> (0 < length cell)%nat ->
  attempts_inv self0 g0 k w ->
  (repeat_M n (collision_attempt cell vmax) w).2 = Ok tt /\
  attempts_inv self0 g0 (k + n) (repeat_M n (collision_attempt cell vmax) w).1.
Proof.
  intros Hg Hcell Hlen. revert k w.
  induction n as [| n IH]; intros k w Hinv; simpl.
  - split; [done |]. by rewrite Nat.add_0_r.
  - destruct Hinv as (Hframe & Hlr & Hrot & Hatt & Hrng).
    unfold bind. rewrite collision_attempt_unfold. cbv zeta. cbn [fst snd].
    set (d := w.2 0%nat).
    assert (Hcell' : cell_ok w.1 cell).
    { unfold cell_ok in *.
      destruct Hframe as (_&_&_&_&_&_&_&_&_&_&Hlv&_). by rewrite Hlv. }
    destruct (np_random_choice2_ok w.1 cell d Hcell' Hlen) as [Hi1 Hi2].
    assert (Hbeta : 0 <= beta_trans d <= 1).
    { unfold d. rewrite Hrng. apply Hg. }
    destruct (perform_collision_ok w.1 _ _ vmax d Hi1 Hi2 Hlr Hrot Hbeta)
      as [Hok Hcount].
    pose proof (perform_collision_frame w.1 (np_random_choice2 cell d).1
                  (np_random_choice2 cell d).2 vmax d) as Hf.
    pose proof (perform_collision_rot_nonneg w.1 (np_random_choice2 cell d).1
                  (np_random_choice2 cell d).2 vmax d Hrot Hbeta) as Hrot'.
    rewrite Hok.
    replace (k + S n)%nat with (S k + n)%nat by lia.
    apply IH. split_and!; cbn [fst snd].
    + by eapply collision_frame_trans.
    + destruct Hf as (_&_&_&_&_&_&_&_&_&_&Hlv&Hlr'). by rewrite Hlv, Hlr'.
    + done.
    + rewrite Hcount, Hatt. lia.
    + intros j. unfold advance. rewrite Hrng. f_equal. lia.
Qed.

(** Claim C8.  In a cell of at least two particles, with [coeff >= 0], the
    maximum relative speed is non-negative, [n_candidate_pairs] is
    [floor(coeff * n * (n - 1) * v_rel_max)], and the loop makes exactly
    that many attempts: it returns normally, the three counters grow by
    that number in total and the generator has given that many records. *)
Theorem candidate_pairs_processed (self : DSMCSimulation) (g : rng)
    (cell_particles : list nat) :
  length (rotational_energy self) = length (velocities self) ->
  rot_nonneg self -> valid_rng g ->
  cell_ok self cell_particles ->
  (2 <= length cell_particles)%nat ->
  0 <= coeff self ->
  exists max_rel_velocity,
    max_relative_velocity_in_cell self cell_particles = Ok max_rel_velocity /\
    0 <= max_rel_velocity /\
    let n := Z.of_nat (length cell_particles) in
    let count := Zfloor (coeff self * IZR n * IZR (n - 1) * max_rel_velocity) in
    n_candidate_pairs self (length cell_particles) max_rel_velocity = count /\
    (0 <= count)%Z /\
    (collide_cell cell_particles (self, g)).2 = Ok tt /\
    attempts (collide_cell cell_particles (self, g)).1.1
      = (attempts self + Z.to_nat count)%nat /\
    forall j, (collide_cell cell_particles (self, g)).1.2 j
              = g (Z.to_nat count + j)%nat.
Proof.
  intros Hlr Hrot Hg Hcell Hn Hcoeff.
  destruct (max_relative_velocity_in_cell_ok self cell_particles Hcell)
    as (vmax & Hmax & Hpos).
  exists vmax. split; [done |]. split; [done |]. simpl.
  set (n := Z.of_nat (length cell_particles)).
  assert (Harg : 0 <= coeff self * IZR n * IZR (n - 1) * vmax).
  { assert (2 <= IZR n) by (apply IZR_le; lia).
    rewrite minus_IZR.
    repeat apply Rmult_le_pos; lra. }
  assert (Hcount : n_candidate_pairs self (length cell_particles) vmax
                   = Zfloor (coeff self * IZR n * IZR (n - 1) * vmax)).
  { unfold n_candidate_pairs. by apply py_int_floor. }
  split; [done |].
  split; [by apply (Zfloor_lub 0) |].
  assert (Hrun : collide_cell cell_particles (self, g)
                 = repeat_M
                     (Z.to_nat
                        (Zfloor (coeff self * IZR n * IZR (n - 1) * vmax)))
                     (collision_attempt cell_particles vmax) (self, g)).
  { unfold collide_cell.
    destruct (Nat.ltb_spec (length cell_particles) 2) as [? | _]; [lia |].
    unfold bind, get_self, of_res. cbn [fst snd].
    by rewrite Hmax, Hcount. }
  rewrite Hrun.
  assert (Hinv : attempts_inv self g 0 (self, g)).
  { split_and!; cbn [fst snd]; auto using collision_frame_refl with lia. }
  destruct (repeat_attempts self g cell_particles vmax
              (Z.to_nat (Zfloor (coeff self * IZR n * IZR (n - 1) * vmax)))
              0 (self, g) Hg Hcell ltac:(lia) Hinv)
    as (Hok & _ & _ & _ & Hatt & Hrng).
  done.
Qed.

(** ** The surrogate *)

Lemma perform_collision_with_mdn
    (self : DSMCSimulation) (b : bool) (m : option predictor)
    (idx1 idx2 : nat) (max_rel_velocity : R) (d : draws) :
  perform_collision (with_mdn b m self) idx1 idx2 max_rel_velocity d =
  (with_mdn b m (perform_collision self idx1 idx2 max_rel_velocity d).1,
   (perform_collision self idx1 idx2 max_rel_velocity d).2).
Proof.
  unfold perform_collision.
  cbn [velocities rotational_energy with_mdn p_inelastic].
  destruct (velocities self !! idx1) as [v1|]; [| done].
  destruct (velocities self !! idx2) as [v2|]; [| done].
  destruct (Rgt_dec _ _); [done |].
  destruct (Rgt_dec _ _); [done |].
  cbn.
  destruct (rotational_energy self !! idx1) as [r1|]; [| done].
  destruct (rotational_energy self !! idx2) as [r2|]; [| done].
  cbn.
  repeat case_match; done.
Qed.

Lemma sigmoid_0 : sigmoid 0 = 0.5.
Proof. unfold sigmoid. rewrite Ropp_0, exp_0. lra. Qed.

Lemma analytic_outcome_with_surrogate (m : option predictor) :
  rotational_energy
    (perform_collision (with_mdn true m two_particles) 0 1 1
       full_transfer_draws).1 = [0; 0].
Proof.
  rewrite perform_collision_with_mdn.
  cbn [fst with_mdn rotational_energy].
  unfold perform_collision.
  change (velocities two_particles !! 0%nat) with (Some (V3 1 0 0)).
  change (velocities two_particles !! 1%nat) with (Some (V3 0 0 0)).
  cbv beta iota zeta. unfold calculate_relative_velocity.
  match goal with
  | |- context [Rgt_dec (rand_accept ?d) ?p] =>
      destruct (Rgt_dec (rand_accept d) p) as [Hrej | _]
  end.
  { exfalso. revert Hrej. apply norm_accepts. reflexivity. }
  match goal with
  | |- context [Rgt_dec (rand_type ?d) ?p] =>
      destruct (Rgt_dec (rand_type d) p) as [Hel | _]
  end.
  { exfalso. revert Hel. cbn. lra. }
  change (rotational_energy
            (set_inelastic_collisions (S (inelastic_collisions two_particles))
               two_particles) !! 0%nat) with (Some 1).
  change (rotational_energy
            (set_inelastic_collisions (S (inelastic_collisions two_particles))
               two_particles) !! 1%nat) with (Some 1).
  cbv beta iota zeta.
  cbn [velocities rotational_energy set_velocities set_rotational_energy
       set_inelastic_collisions two_particles lookup list_lookup insert
       list_insert beta_trans full_transfer_draws].
  destruct (np_isclose_dec _ _ _);
    cbn [fst rotational_energy set_velocities set_rotational_energy
         set_inelastic_collisions two_particles];
    repeat f_equal; lra.
Qed.

(** Claim C3.  [perform_collision] never reads [use_mdn] or [mdn_model]:
    changing them changes neither the outcome nor the velocities, energies
    or counters it writes.  With [use_mdn = True] an inelastic collision is
    still the analytic Larsen-Borgnakke one: for a Beta draw of 1 both
    rotational energies become 0 whatever the model, also for the model
    with which [mdn_energy_exchange] returns the fractions [(0.5, 0.5)]. *)
Theorem perform_collision_ignores_mdn :
  (forall (self : DSMCSimulation) (b : bool) (m : option predictor)
          (idx1 idx2 : nat) (max_rel_velocity : R) (d : draws),
     perform_collision (with_mdn b m self) idx1 idx2 max_rel_velocity d =
     (with_mdn b m (perform_collision self idx1 idx2 max_rel_velocity d).1,
      (perform_collision self idx1 idx2 max_rel_velocity d).2)) /\
  (forall m : option predictor,
     rotational_energy
       (perform_collision (with_mdn true m two_particles) 0 1 1
          full_transfer_draws).1 = [0; 0]) /\
  (forall features : R * R * R,
     mdn_energy_exchange (with_mdn true (Some constant_model) two_particles)
       features = Ok (0.5, 0.5)).
Proof.
  split_and!.
  - apply perform_collision_with_mdn.
  - apply analytic_outcome_with_surrogate.
  - intros [[log_Ec inv_eps_t] inv_eps_r1]. unfold mdn_energy_exchange.
    cbn [mdn_model with_mdn constant_model]. by rewrite sigmoid_0.
Qed.

(** ** Construction *)

Lemma init_time_step (a : Args.t) (g : init_draws) (self : DSMCSimulation) :
  init a g = Ok self ->
  time_step self =
    0.2 * (Args.domain_size a / IZR (Args.n_cells a))
    / sqrt (3 * k_B * Args.T_tr_initial a / m_H2).
Proof. unfold init. repeat case_match; try done. by intros [= <-]. Qed.

Lemma init_defaults_ok (n_particles n_steps : Z) (g : init_draws) :
  (0 < n_particles)%Z ->
  exists self, init (Args.defaults n_particles n_steps) g = Ok self.
Proof.
  intros Hn. unfold init. cbn [Args.defaults Args.Z_r Args.n_cells
    Args.n_particles].
  destruct (Req_dec_T 245 0) as [? | _]; [lra |].
  cbn [Z.eqb Z.ltb Z.compare].
  destruct (Z.eqb_spec n_particles 0); [lia |].
  destruct (Z.ltb_spec n_particles 0); [lia |].
  eexists. reflexivity.
Qed.

Lemma default_time_step_value :
  0.2 * (6.4e-4 / 10) / sqrt (3 * k_B * 380 / m_H2) <> 1e-6.
Proof.
  set (X := 3 * k_B * 380 / m_H2).
  assert (HX : 400 < X) by (unfold X, k_B, m_H2; lra).
  assert (Hv : 0 < sqrt X) by (apply sqrt_lt_R0; lra).
  pose proof (sqrt_sqrt X ltac:(lra)) as Hsq.
  intros Heq.
  assert (Hmul : 0.2 * (6.4e-4 / 10) / sqrt X * sqrt X = 0.2 * (6.4e-4 / 10)).
  { unfold Rdiv at 1. rewrite Rmult_assoc, Rinv_l, Rmult_1_r; [done | lra]. }
  rewrite Heq in Hmul.
  assert (Hv' : sqrt X = 12.8) by lra.
  rewrite Hv' in Hsq. lra.
Qed.

(** Claim C4.  The [time_step] argument of the constructor has no effect:
    two calls that differ only in it build the same object, and the call
    [DSMCSimulation(1000, 10)] with [time_step = 1e-6] builds an object
    whose [time_step] is the derived value, which is not [1e-6]. *)
Theorem time_step_argument_ignored :
  (forall a t g, init (set_time_step_arg t a) g = init a g) /\
  (forall g, exists self,
     init (Args.defaults 1000 10) g = Ok self /\
     Args.time_step (Args.defaults 1000 10) = 1e-6 /\
     time_step self = 0.2 * (6.4e-4 / 10) / sqrt (3 * k_B * 380 / m_H2) /\
     time_step self <> 1e-6).
Proof.
  split; [done |].
  intros g. destruct (init_defaults_ok 1000 10 g ltac:(lia)) as [self Hself].
  exists self. pose proof (init_time_step _ _ _ Hself) as Hts.
  cbn [Args.defaults Args.domain_size Args.n_cells Args.T_tr_initial] in Hts.
  split_and!; [done | done | done |].
  rewrite Hts. apply default_time_step_value.
Qed.

(** Claim C9 as stated fails: a configuration that the specification calls
    invalid is accepted. *)
Lemma init_accepts_invalid_configuration :
  ~ (forall a g, invalid_configuration a -> exists e, init a g = Raise e).
Proof.
  intros H.
  destruct (H rejected_by_spec zero_init_draws) as [e He].
  { right. left. simpl. lia. }
  revert He. unfold init.
  cbn [rejected_by_spec Args.Z_r Args.n_cells Args.n_particles].
  destruct (Req_dec_T 0.5 0) as [? | _]; [lra |].
  cbn [Z.eqb Z.ltb Z.compare]. done.
Qed.

Ltac init_cases :=
  split_and!; split; intros;
  repeat match goal with
         | H : _ /\ _ |- _ => destruct H
         | H : exists _, _ |- _ => destruct H
         end;
  try discriminate; try tauto; try lia; try (split_and!; (tauto || lia)).

(** Claim C9, amended.  The constructor checks nothing.  For
    [T_tr_initial >= 0] it raises [ZeroDivisionError] exactly when [Z_r],
    [n_cells] or [n_particles] is zero, [ValueError] exactly when none of
    them is zero and [n_particles] or [n_cells] is negative, and builds the
    object in every other case, whatever [n_steps], [T_rot_initial],
    [domain_size], [sigma_collision], [use_mdn] and [mdn_model] are. *)
Theorem init_raises_only_from_arithmetic (a : Args.t) (g : init_draws) :
  0 <= Args.T_tr_initial a ->
  (init a g = Raise ZeroDivisionError <->
     Args.Z_r a = 0 \/ Args.n_cells a = 0%Z \/ Args.n_particles a = 0%Z) /\
  (init a g = Raise ValueError <->
     Args.Z_r a <> 0 /\ Args.n_cells a <> 0%Z /\ Args.n_particles a <> 0%Z /\
     ((Args.n_particles a < 0)%Z \/ (Args.n_cells a < 0)%Z)) /\
  ((exists self, init a g = Ok self) <->
     Args.Z_r a <> 0 /\ (0 < Args.n_cells a)%Z /\ (0 < Args.n_particles a)%Z).
Proof.
  intros _. unfold init.
  destruct (Req_dec_T (Args.Z_r a) 0) as [Hz | Hz]; [init_cases |].
  destruct (Z.eqb_spec (Args.n_cells a) 0) as [Hc | Hc]; [init_cases |].
  destruct (Z.eqb_spec (Args.n_particles a) 0) as [Hp | Hp]; [init_cases |].
  destruct (Z.ltb_spec (Args.n_particles a) 0) as [Hp' | Hp'];
    [init_cases |].
  destruct (Z.ltb_spec (Args.n_cells a) 0) as [Hc' | Hc']; [init_cases |].
  init_cases. eexists. reflexivity.
Qed.

(** ** What the constructor establishes *)

Lemma init_well_formed (a : Args.t) (g : init_draws) (self : DSMCSimulation) :
  init a g = Ok self ->
  well_formed self /\ (0 < n_cells self)%Z /\ (0 < n_particles self)%Z.
Proof.
  unfold init.
  destruct (Req_dec_T _ _); [done |].
  destruct (Z.eqb_spec (Args.n_cells a) 0); [done |].
  destruct (Z.eqb_spec (Args.n_particles a) 0); [done |].
  destruct (Z.ltb_spec (Args.n_particles a) 0); [done |].
  destruct (Z.ltb_spec (Args.n_cells a) 0); [done |].
  intros [= <-]. unfold well_formed, initialize_positions,
    initialize_velocities, py_range. simpl.
  rewrite !length_map, !length_seq, length_replicate.
  split_and!; try done; lia.
Qed.

Lemma init_coeff_nonneg (a : Args.t) (g : init_draws) (self : DSMCSimulation) :
  init a g = Ok self -> 0 < Args.domain_size a -> 0 <= coeff self.
Proof.
  unfold init.
  destruct (Req_dec_T _ _); [done |].
  destruct (Z.eqb_spec (Args.n_cells a) 0); [done |].
  destruct (Z.eqb_spec (Args.n_particles a) 0); [done |].
  destruct (Z.ltb_spec (Args.n_particles a) 0); [done |].
  destruct (Z.ltb_spec (Args.n_cells a) 0); [done |].
  intros [= <-] Hd. cbn [coeff].
  assert (Hnc : 0 < IZR (Args.n_cells a)) by (apply IZR_lt; lia).
  assert (Hnp : 0 < IZR (Args.n_particles a)) by (apply IZR_lt; lia).
  assert (Hd3 : 0 < Args.domain_size a ^ 3) by (by apply pow_lt).
  pose proof m_H2_pos as Hm. pose proof PI_RGT_0 as Hpi.
  assert (Hdens : 0 < density) by (unfold density; lra).
  pose proof (sqrt_pos (3 * k_B * Args.T_tr_initial a / m_H2)) as Hv.
  set (v := sqrt (3 * k_B * Args.T_tr_initial a / m_H2)) in *.
  assert (Hiv : 0 <= / v).
  { destruct Hv as [Hv | <-]; [left; by apply Rinv_0_lt_compat |].
    rewrite Rinv_0. lra. }
  assert (Hs : 0 <= Args.sigma_collision a ^ 2) by apply pow2_ge_0.
  assert (Heff : 0 < density / m_H2 * Args.domain_size a ^ 3
                     / IZR (Args.n_particles a)).
  { apply Rdiv_lt_0_compat; [| done].
    apply Rmult_lt_0_compat; [| done]. by apply Rdiv_lt_0_compat. }
  assert (Hts : 0 <= 0.2 * (Args.domain_size a / IZR (Args.n_cells a)) / v).
  { apply Rmult_le_pos; [| done]. left.
    apply Rmult_lt_0_compat; [lra |]. by apply Rdiv_lt_0_compat. }
  assert (Hvol : 0 < Args.domain_size a ^ 3 / IZR (Args.n_cells a))
    by (by apply Rdiv_lt_0_compat).
  apply Rmult_le_pos; [| left; by apply Rinv_0_lt_compat].
  apply Rmult_le_pos; [| done]. apply Rmult_le_pos; [| done]. left.
  apply Rmult_lt_0_compat; [| done]. apply Rmult_lt_0_compat; [lra | done].
Qed.

(** ** Runs

    No step of a run fails the energy check of the inelastic branch. *)

Lemma perform_collision_no_assertion
    (self : DSMCSimulation) (idx1 idx2 : nat) (max_rel_velocity : R)
    (d : draws) :
  rot_nonneg self -> 0 <= beta_trans d <= 1 ->
  (perform_collision self idx1 idx2 max_rel_velocity d).2
    <> Raise AssertionError.
Proof.
  intros Hrot Hbeta.
  destruct (velocities self !! idx1) as [v1|] eqn:Hv1;
    [| unfold perform_collision; by rewrite Hv1].
  destruct (velocities self !! idx2) as [v2|] eqn:Hv2;
    [| unfold perform_collision; by rewrite Hv1, Hv2].
  destruct (Rgt_dec (rand_accept d) (norm (vsub v1 v2) / max_rel_velocity))
    as [Hrej | Hacc].
  { unfold perform_collision. rewrite Hv1, Hv2.
    unfold calculate_relative_velocity. by destruct (Rgt_dec _ _). }
  destruct (Rgt_dec (rand_type d) (p_inelastic self)) as [Hel | Hinel].
  { unfold perform_collision. rewrite Hv1, Hv2.
    unfold calculate_relative_velocity.
    destruct (Rgt_dec _ _); [done |]. by destruct (Rgt_dec _ _). }
  destruct (rotational_energy self !! idx1) as [r1|] eqn:Hr1; cycle 1.
  { unfold perform_collision. rewrite Hv1, Hv2.
    unfold calculate_relative_velocity.
    destruct (Rgt_dec _ _); [done |]. destruct (Rgt_dec _ _); [done |].
    simpl. by rewrite Hr1. }
  destruct (rotational_energy self !! idx2) as [r2|] eqn:Hr2; cycle 1.
  { unfold perform_collision. rewrite Hv1, Hv2.
    unfold calculate_relative_velocity.
    destruct (Rgt_dec _ _); [done |]. destruct (Rgt_dec _ _); [done |].
    simpl. by rewrite Hr1, Hr2. }
  assert (0 <= r1) by (by eapply (Forall_lookup_1 _ _ _ _ Hrot Hr1)).
  assert (0 <= r2) by (by eapply (Forall_lookup_1 _ _ _ _ Hrot Hr2)).
  destruct (inelastic_collision_core self idx1 idx2 max_rel_velocity d
              v1 v2 r1 r2) as (_ & _ & _ & _ & _ & _ & _ & _ & _ & _ & ->);
    done.
Qed.

Lemma assign_particle_raises (i : nat) (self : DSMCSimulation) (e : exn) :
  (assign_particle i self).2 = Raise e -> e = IndexError.
Proof. unfold assign_particle. repeat case_match; simpl; congruence. Qed.

Lemma assign_loop_raises (l : list nat) (self : DSMCSimulation) (e : exn) :
  (assign_loop l self).2 = Raise e -> e = IndexError.
Proof.
  revert self. induction l as [| i l IH]; intros self; simpl; [done |].
  pose proof (assign_particle_raises i self) as Hp.
  destruct (assign_particle i self) as [self' [[] | e']]; simpl in *.
  - apply IH.
  - intros [= <-]. by apply Hp.
Qed.

Lemma max_rel_inner_raises self idx1 later acc e :
  max_rel_inner self idx1 later acc = Raise e -> e = IndexError.
Proof.
  revert acc. induction later as [| idx2 later IH]; intros acc; simpl;
    [done |].
  repeat case_match; try congruence; apply IH.
Qed.

Lemma max_rel_outer_raises self particles acc e :
  max_rel_outer self particles acc = Raise e -> e = IndexError.
Proof.
  revert acc. induction particles as [| idx1 later IH]; intros acc; simpl;
    [done |].
  destruct (max_rel_inner self idx1 later acc) as [m | e'] eqn:Hin.
  - apply IH.
  - intros [= <-]. by eapply max_rel_inner_raises.
Qed.

Lemma collision_attempt_no_assertion (cell : list nat) (vmax : R) :
  hoare rot_inv (collision_attempt cell vmax) (fun _ => rot_inv) not_assertion.
Proof.
  intros w [Hrot Hg]. pose proof (collision_attempt_rot_inv cell vmax w
                                     (conj Hrot Hg)) as Hinv.
  rewrite collision_attempt_unfold in *. cbv zeta in *.
  pose proof (perform_collision_no_assertion w.1
                (np_random_choice2 cell (w.2 0%nat)).1
                (np_random_choice2 cell (w.2 0%nat)).2 vmax (w.2 0%nat)
                Hrot (proj1 (proj2 (proj2 (Hg 0%nat))))) as Hno.
  destruct (perform_collision _ _ _ _ _) as [self' [[] | e]]; simpl in *;
    [done |].
  split; [done | congruence].
Qed.

Lemma dsmc_step_no_assertion :
  hoare rot_inv dsmc_step (fun _ => rot_inv) not_assertion.
Proof.
  apply dsmc_step_spec.
  - intros w [Hrot Hg].
    assert (rot_inv ((assign_to_cells (update_positions w.1)).1, w.2)) as HI.
    { split; [| done]. unfold rot_nonneg. simpl.
      by destruct (assign_to_cells_frame (update_positions w.1))
        as (_ & _ & -> & _). }
    destruct (assign_to_cells (update_positions w.1)).2 as [[] | e] eqn:He;
      [done |].
    split; [done |]. apply assign_loop_raises in He. by subst e.
  - intros i j k.
    apply (hoare_bind _ _ _ (fun _ => rot_inv));
      [eapply hoare_weaken;
         [apply hoare_get_self | done | by intros ? ? [] | done] |].
    intros self. apply (collide_cell_hoare rot_inv rot_inv).
    + intros w Hw _.
      destruct (max_relative_velocity_in_cell w.1 _) as [m | e] eqn:He;
        [done |].
      split; [done |]. apply max_rel_outer_raises in He. by subst e.
    + done.
    + apply collision_attempt_no_assertion.
Qed.

Lemma run_steps_no_assertion (steps : nat) :
  hoare rot_inv (run_steps steps) (fun _ => rot_inv) not_assertion.
Proof.
  apply run_steps_spec; [done | apply dsmc_step_no_assertion |].
  intros w [Hrot Hg]. done.
Qed.

(** Claim C1.  In an accepted inelastic collision of a pair whose
    rotational energies are non-negative, with a Beta draw in [[0, 1]], the
    total energy [E_trans + rot1 + rot2] of the pair, recomputed from the
    arrays after the update, equals the one computed before it; so the two
    differ by less than [1e-10], the check of [np.isclose] passes and
    [perform_collision] returns normally.  In a run started from the object
    that [__init__] builds from physical constants, no step ever ends in
    [AssertionError]. *)
Theorem inelastic_collision_conserves_energy :
  (forall (self : DSMCSimulation) (idx1 idx2 : nat) (max_rel_velocity : R)
          (d : draws) (v1 v2 : vec3) (rot1 rot2 : R),
     velocities self !! idx1 = Some v1 ->
     velocities self !! idx2 = Some v2 ->
     rotational_energy self !! idx1 = Some rot1 ->
     rotational_energy self !! idx2 = Some rot2 ->
     0 <= rot1 -> 0 <= rot2 ->
     0 <= beta_trans d <= 1 ->
     ~ rand_accept d > norm (vsub v1 v2) / max_rel_velocity ->
     ~ rand_type d > p_inelastic self ->
     let self' := (perform_collision self idx1 idx2 max_rel_velocity d).1 in
     let CM := vscale 0.5 (vadd v1 v2) in
     let E_total_pre := cm_frame_energy v1 v2 CM + (rot1 + rot2) in
     exists v1' v2' rot1' rot2',
       velocities self' !! idx1 = Some v1' /\
       velocities self' !! idx2 = Some v2' /\
       rotational_energy self' !! idx1 = Some rot1' /\
       rotational_energy self' !! idx2 = Some rot2' /\
       let E_total_post := cm_frame_energy v1' v2' CM + (rot1' + rot2') in
       Rabs (E_total_pre - E_total_post) < 1e-10 /\
       np_isclose E_total_pre E_total_post 1e-10 /\
       inelastic_collisions self' = S (inelastic_collisions self) /\
       (perform_collision self idx1 idx2 max_rel_velocity d).2 = Ok tt) /\
  (forall (a : Args.t) (g0 : init_draws) (g : rng) (self0 : DSMCSimulation)
          (steps : nat),
     physical a ->
     init a g0 = Ok self0 ->
     valid_rng g ->
     (run_steps steps (self0, g)).2 <> Raise AssertionError).
Proof.
  split.
  - intros self idx1 idx2 max_rel_velocity d v1 v2 rot1 rot2
           H1 H2 Hr1 Hr2 Hp1 Hp2 Hbeta Hacc Hinel self' CM E_total_pre.
    destruct (inelastic_collision_core self idx1 idx2 max_rel_velocity d
                v1 v2 rot1 rot2 H1 H2 Hr1 Hr2 Hp1 Hp2 Hbeta Hacc Hinel)
      as (v1' & v2' & rot1' & rot2' & Hv1 & Hv2 & Hq1 & Hq2 & Heq & Hcnt
          & Hok).
    exists v1', v2', rot1', rot2'. cbv zeta.
    fold CM in Heq. fold E_total_pre in Heq. rewrite Heq.
    split_and!; try done.
    + rewrite Rminus_diag, Rabs_R0. lra.
    + apply np_isclose_refl. lra.
  - intros a g0 g self0 steps (_ & HT & _) Hinit Hg.
    pose proof (run_steps_no_assertion steps (self0, g)
                  (conj (init_rot_nonneg a g0 self0 HT Hinit) Hg)) as Hrun.
    destruct (run_steps steps (self0, g)) as [w' [[] | e]]; simpl in *;
      [done |].
    destruct Hrun as [_ He]. congruence.
Qed.

(** A run from a valid configuration raises nothing at all. *)

Lemma assign_particle_cells (N i : nat) (self : DSMCSimulation) :
  (forall key, Forall (fun j => (j < N)%nat) (cells self key)) ->
  (i < N)%nat ->
  forall key,
    Forall (fun j => (j < N)%nat) (cells (assign_particle i self).1 key).
Proof.
  intros Hcells Hi key. unfold assign_particle.
  repeat case_match; simpl; try apply Hcells.
  unfold cell_append. case_match; [| apply Hcells].
  apply Forall_app. split; [apply Hcells | by repeat constructor].
Qed.

Lemma assign_loop_cells (N : nat) (l : list nat) (self : DSMCSimulation) :
  (forall key, Forall (fun j => (j < N)%nat) (cells self key)) ->
  Forall (fun i => (i < N)%nat) l ->
  forall key, Forall (fun j => (j < N)%nat) (cells (assign_loop l self).1 key).
Proof.
  revert self. induction l as [| i l IH]; intros self Hcells Hl; simpl;
    [done |].
  apply Forall_cons in Hl as [Hi Hl].
  pose proof (assign_particle_cells N i self Hcells Hi) as Hc.
  destruct (assign_particle i self) as [self' [[] | e]]; simpl in *;
    [by apply IH | done].
Qed.

Lemma collision_frame_well_formed (a b : DSMCSimulation) :
  collision_frame a b -> well_formed a -> well_formed b.
Proof.
  intros (Hn & _ & _ & Hd & Hc & _ & _ & Hp & _ & Hcs & Hlv & Hlr)
         (Hwp & Hwv & Hwr & Hwc).
  unfold well_formed. rewrite Hp, Hlv, Hlr, Hn, Hcs, Hd, Hc. done.
Qed.

Lemma transport_safe (w : world) :
  safe_inv w ->
  (assign_to_cells (update_positions w.1)).2 = Ok tt /\
  safe_inv ((assign_to_cells (update_positions w.1)).1, w.2).
Proof.
  intros (Hwf & Hrot & Hg & Hd & Hn & Hcells).
  pose proof (update_positions_well_formed w.1 Hwf) as Hwf'.
  split.
  { apply assign_to_cells_ok; try done.
    eapply in_domain_ext, update_positions_in_domain; done. }
  destruct (assign_to_cells_frame (update_positions w.1))
    as (Hp & Hv & Hr & Hds & Hnc & Hcs & Hnp & _).
  destruct Hwf' as (Hlp & Hlv & Hlr & Hcsz).
  unfold safe_inv, well_formed, rot_nonneg, cell_ok. cbn [fst snd].
  rewrite Hp, Hv, Hr, Hds, Hnc, Hcs, Hnp.
  split_and!; try done.
  intros key. unfold assign_to_cells.
  apply assign_loop_cells; [intros ?; by constructor |].
  apply py_range_lt. exact Hlv.
Qed.

Lemma collision_attempt_safe (cell : list nat) (vmax : R) :
  hoare (safe_cell_inv cell) (collision_attempt cell vmax)
    (fun _ => safe_cell_inv cell) never.
Proof.
  intros w ((Hwf & Hrot & Hg & Hd & Hn & Hcells) & Hcell & Hlen).
  rewrite collision_attempt_unfold. cbv zeta.
  set (d := w.2 0%nat).
  destruct (np_random_choice2_ok w.1 cell d Hcell ltac:(lia)) as [Hi1 Hi2].
  assert (Hbeta : 0 <= beta_trans d <= 1) by apply Hg.
  assert (Hlr : length (rotational_energy w.1) = length (velocities w.1)).
  { destruct Hwf as (_ & -> & -> & _). done. }
  destruct (perform_collision_ok w.1 _ _ vmax d Hi1 Hi2 Hlr Hrot Hbeta)
    as [Hok _].
  pose proof (perform_collision_frame w.1 (np_random_choice2 cell d).1
                (np_random_choice2 cell d).2 vmax d) as Hf.
  pose proof (perform_collision_rot_nonneg w.1 (np_random_choice2 cell d).1
                (np_random_choice2 cell d).2 vmax d Hrot Hbeta) as Hrot'.
  pose proof (collision_frame_well_formed _ _ Hf Hwf) as Hwf'.
  destruct Hf as (_ & _ & _ & Hds & Hnc & _ & _ & _ & Hcl & _ & Hlv & _).
  destruct (perform_collision _ _ _ _ _) as [self' r]. simpl in *. subst r.
  unfold safe_cell_inv, safe_inv, cell_ok in *. cbn [fst snd].
  rewrite Hds, Hnc, Hcl, Hlv. split_and!; try done.
  by apply valid_rng_advance.
Qed.

Lemma collide_cell_safe (i j k : nat) :
  hoare safe_inv (self <- get_self ;; collide_cell (get_cell self i j k))
    (fun _ => safe_inv) never.
Proof.
  apply (hoare_bind _ _ _ (fun self w => safe_inv w /\ self = w.1));
    [apply hoare_get_self | intros self].
  set (cell := get_cell self i j k).
  apply (hoare_weaken _ (fun w => safe_inv w /\ cell_ok w.1 cell) _
           _ (fun _ w => safe_inv w /\ cell_ok w.1 cell) _ never).
  - apply (collide_cell_hoare _ (safe_cell_inv cell)).
    + intros w [Hw Hcell] Hlen.
      destruct (max_relative_velocity_in_cell_ok w.1 cell Hcell)
        as (m & -> & _). done.
    + by intros w (? & ? & _).
    + apply collision_attempt_safe.
  - intros w [Hw ->]. split; [done |]. apply Hw.
  - by intros _ w [? _].
  - done.
Qed.

Lemma dsmc_step_safe : hoare safe_inv dsmc_step (fun _ => safe_inv) never.
Proof.
  apply dsmc_step_spec.
  - intros w Hw. destruct (transport_safe w Hw) as [-> Hinv]. done.
  - apply collide_cell_safe.
Qed.

Lemma run_steps_safe (steps : nat) :
  hoare safe_inv (run_steps steps) (fun _ => safe_inv) never.
Proof.
  apply run_steps_spec; [done | apply dsmc_step_safe |].
  intros w H. exact H.
Qed.

Lemma init_safe_inv (a : Args.t) (g0 : init_draws) (g : rng)
    (self0 : DSMCSimulation) :
  init a g0 = Ok self0 -> 0 < Args.domain_size a ->
  0 <= Args.T_rot_initial a -> valid_rng g ->
  safe_inv (self0, g).
Proof.
  intros Hinit Hd HT Hg.
  destruct (init_well_formed a g0 self0 Hinit) as (Hwf & Hn & _).
  pose proof (init_rot_nonneg a g0 self0 HT Hinit) as Hrot.
  unfold safe_inv. cbn [fst snd]. split_and!; try done; try lia.
  - revert Hinit. unfold init. repeat case_match; try done.
    by intros [= <-].
  - intros key. revert Hinit. unfold init. repeat case_match; try done.
    intros [= <-]. by constructor.
Qed.

Lemma run_never_raises (a : Args.t) (g0 : init_draws) (g : rng)
    (self0 : DSMCSimulation) (steps : nat) :
  init a g0 = Ok self0 -> 0 < Args.domain_size a ->
  0 <= Args.T_rot_initial a -> valid_rng g ->
  (run_steps steps (self0, g)).2 = Ok tt.
Proof.
  intros Hinit Hd HT Hg.
  pose proof (run_steps_safe steps (self0, g)
                (init_safe_inv a g0 g self0 Hinit Hd HT Hg)) as H.
  destruct (run_steps steps (self0, g)) as [w' [[] | e]]; done.
Qed.

(** Claim C7 (a defect of the code).  A coordinate that
    [update_positions] has wrapped to [domain_size] gets the cell
    coordinate [n_cells] whenever [domain_size // cell_size] is [n_cells]
    in binary64, and [assign_to_cells] then raises [IndexError].  It does
    with the default box cut into 8 cells per axis and with a box of
    size 1 cut into 3: before the update every coordinate lies in
    [[0, domain_size)] and [assign_to_cells] returns, after it the cell
    coordinate on the [x] axis is [n_cells] and [assign_to_cells] raises.
    With the default 10 cells the quotient is 9 and nothing is raised. *)
Theorem assign_to_cells_raises_after_wrap :
  (forallb (F64.in_domain F64.eight_cells) (F64.positions F64.eight_cells)
   = true /\
   (F64.assign_to_cells F64.eight_cells).2 = Ok tt /\
   map (fun p => F64.cell_index F64.eight_cells (F64.vx p))
     (F64.positions (F64.update_positions F64.eight_cells))
   = [F64.n_cells F64.eight_cells] /\
   (F64.assign_to_cells (F64.update_positions F64.eight_cells)).2
   = Raise IndexError) /\
  (forallb (F64.in_domain F64.three_cells) (F64.positions F64.three_cells)
   = true /\
   (F64.assign_to_cells F64.three_cells).2 = Ok tt /\
   map (fun p => F64.cell_index F64.three_cells (F64.vx p))
     (F64.positions (F64.update_positions F64.three_cells))
   = [F64.n_cells F64.three_cells] /\
   (F64.assign_to_cells (F64.update_positions F64.three_cells)).2
   = Raise IndexError) /\
  (F64.assign_to_cells (F64.update_positions F64.near_the_wall)).2 = Ok tt.
Proof.
  split_and!.
  - vm_compute. reflexivity.
  - vm_compute. reflexivity.
  - vm_compute. reflexivity.
  - vm_compute. reflexivity.
  - vm_compute. reflexivity.
  - vm_compute. reflexivity.
  - vm_compute. reflexivity.
  - vm_compute. reflexivity.
  - vm_compute. reflexivity.
Qed.

(** ** The theorems at concrete inputs *)

Lemma constant_rng_valid : valid_rng constant_rng.
Proof. intros k. unfold valid_draws. cbn. lra. Defined.

Lemma defaults_physical (n_particles n_steps : Z) :
  physical (Args.defaults n_particles n_steps).
Proof.
  unfold physical.
  cbn [Args.defaults Args.T_tr_initial Args.T_rot_initial Args.domain_size].
  lra.
Defined.

Lemma inelastic_collision_conserves_energy_witness :
  0 <= beta_trans inelastic_draws <= 1 /\
  ~ rand_type inelastic_draws > p_inelastic two_particles /\
  (perform_collision two_particles 0 1 1 inelastic_draws).2 = Ok tt /\
  forall self0,
    init (Args.defaults 2 1) zero_init_draws = Ok self0 ->
    (run_steps 2 (self0, constant_rng)).2 <> Raise AssertionError.
Proof.
  assert (Hb : 0 <= beta_trans inelastic_draws <= 1) by (cbn; lra).
  assert (Ht : ~ rand_type inelastic_draws > p_inelastic two_particles)
    by (cbn; lra).
  split; [exact Hb |]. split; [exact Ht |]. split.
  - destruct (proj1 inelastic_collision_conserves_energy two_particles
                0%nat 1%nat 1 inelastic_draws (V3 1 0 0) (V3 0 0 0) 1 1
                eq_refl eq_refl eq_refl eq_refl ltac:(lra) ltac:(lra) Hb
                (norm_accepts inelastic_draws _ eq_refl) Ht)
      as (? & ? & ? & ? & _ & _ & _ & _ & _ & _ & _ & Hok).
    exact Hok.
  - intros self0 H0.
    exact (proj2 inelastic_collision_conserves_energy (Args.defaults 2 1)
             zero_init_draws constant_rng self0 2%nat
             (defaults_physical 2 1) H0 constant_rng_valid).
Defined.

Lemma elastic_collision_outcome_witness :
  rand_type elastic_draws > p_inelastic two_particles /\
  rotational_energy (perform_collision two_particles 0 1 1 elastic_draws).1
    = rotational_energy two_particles /\
  (perform_collision two_particles 0 1 1 elastic_draws).2 = Ok tt.
Proof.
  assert (Ht : rand_type elastic_draws > p_inelastic two_particles)
    by (cbn; lra).
  split; [exact Ht |].
  destruct (elastic_collision_outcome two_particles 0 1 1 elastic_draws
              (V3 1 0 0) (V3 0 0 0) ltac:(lia) eq_refl eq_refl
              (norm_accepts elastic_draws _ eq_refl) Ht)
    as (? & ? & ? & _ & _ & _ & _ & _ & _ & _ & Hrot & _ & Hok).
  split; [exact Hrot | exact Hok].
Defined.

Lemma perform_collision_conserves_momentum_witness :
  exists v1' v2',
    velocities (perform_collision two_particles 0 1 1 elastic_draws).1 !! 0%nat
      = Some v1' /\
    velocities (perform_collision two_particles 0 1 1 elastic_draws).1 !! 1%nat
      = Some v2' /\
    vadd v1' v2' = vadd (V3 1 0 0) (V3 0 0 0).
Proof.
  destruct (perform_collision_conserves_momentum two_particles 0 1 1
              elastic_draws (V3 1 0 0) (V3 0 0 0) ltac:(lia) eq_refl eq_refl)
    as (v1' & v2' & H1 & H2 & Hsum & _).
  exists v1', v2'. split; [exact H1 |]. split; [exact H2 | exact Hsum].
Defined.

Lemma two_particles_well_formed : well_formed two_particles.
Proof. unfold well_formed. cbn. split_and!; try reflexivity. lra. Defined.

Lemma two_particles_rot_nonneg : rot_nonneg two_particles.
Proof. unfold rot_nonneg. cbn. repeat constructor; lra. Defined.

Lemma candidate_pairs_processed_witness :
  cell_ok two_particles [0%nat; 1%nat] /\
  0 <= coeff two_particles /\
  (collide_cell [0%nat; 1%nat] (two_particles, constant_rng)).2 = Ok tt.
Proof.
  assert (Hcell : cell_ok two_particles [0%nat; 1%nat])
    by (unfold cell_ok; cbn; repeat constructor; lia).
  assert (Hcoeff : 0 <= coeff two_particles) by (cbn; lra).
  split; [exact Hcell |]. split; [exact Hcoeff |].
  destruct (candidate_pairs_processed two_particles constant_rng
              [0%nat; 1%nat] eq_refl two_particles_rot_nonneg
              constant_rng_valid Hcell ltac:(cbn; lia) Hcoeff)
    as (vmax & _ & _ & _ & _ & Hok & _).
  exact Hok.
Defined.

Lemma rotational_energy_never_negative_witness :
  physical (Args.defaults 2 1) /\
  exists self0,
    init (Args.defaults 2 1) zero_init_draws = Ok self0 /\
    rot_nonneg (run_steps 2 (self0, constant_rng)).1.1.
Proof.
  split; [exact (defaults_physical 2 1) |].
  destruct (init_defaults_ok 2 1 zero_init_draws ltac:(lia)) as [self0 H0].
  exists self0. split; [exact H0 |].
  exact (proj1 (proj2 (proj2 (rotational_energy_never_negative
                                (Args.defaults 2 1) zero_init_draws
                                constant_rng self0 (defaults_physical 2 1)
                                H0 constant_rng_valid))) 2%nat).
Defined.

Lemma init_raises_only_from_arithmetic_witness :
  0 <= Args.T_tr_initial (Args.defaults 1000 10) /\
  exists self, init (Args.defaults 1000 10) zero_init_draws = Ok self.
Proof.
  assert (HT : 0 <= Args.T_tr_initial (Args.defaults 1000 10)) by (cbn; lra).
  split; [exact HT |].
  apply (proj2 (proj2 (init_raises_only_from_arithmetic
                         (Args.defaults 1000 10) zero_init_draws HT))).
  cbn. split_and!; [lra | lia | lia].
Defined.

(** * Further properties of the code *)

(** ** One attempt, one counter *)

(** The inelastic branch, in closed form: the velocities and the rotational
    energies it writes. *)
Lemma inelastic_state
    (self : DSMCSimulation) (idx1 idx2 : nat) (max_rel_velocity : R)
    (d : draws) (v1 v2 : vec3) (rot1 rot2 : R) :
  velocities self !! idx1 = Some v1 ->
  velocities self !! idx2 = Some v2 ->
  rotational_energy self !! idx1 = Some rot1 ->
  rotational_energy self !! idx2 = Some rot2 ->
  ~ rand_accept d > norm (vsub v1 v2) / max_rel_velocity ->
  ~ rand_type d > p_inelastic self ->
  let CM := vscale 0.5 (vadd v1 v2) in
  let E_total_pre := cm_frame_energy v1 v2 CM + (rot1 + rot2) in
  let E_trans_post := E_total_pre * beta_trans d in
  let w := vscale (sqrt (4 * E_trans_post / m_H2))
             (random_unit_vector (rand_theta d) (rand_phi d)) in
  let self' := (perform_collision self idx1 idx2 max_rel_velocity d).1 in
  velocities self' =
    <[idx2 := vsub CM (vscale 0.5 w)]>
      (<[idx1 := vadd CM (vscale 0.5 w)]> (velocities self)) /\
  rotational_energy self' =
    <[idx2 := (E_total_pre - E_trans_post) / 2]>
      (<[idx1 := (E_total_pre - E_trans_post) / 2]> (rotational_energy self)) /\
  elastic_collisions self' = elastic_collisions self /\
  inelastic_collisions self' = S (inelastic_collisions self) /\
  rejected_collisions self' = rejected_collisions self.
Proof.
  intros H1 H2 Hr1 Hr2 Hacc Hinel. cbv zeta.
  unfold perform_collision. rewrite H1, H2.
  unfold calculate_relative_velocity.
  destruct (Rgt_dec _ _) as [? | _]; [done |].
  destruct (Rgt_dec _ _) as [? | _]; [done |]. simpl.
  rewrite Hr1, Hr2. simpl.
  repeat case_match; done.
Qed.

Lemma elastic_state
    (self : DSMCSimulation) (idx1 idx2 : nat) (max_rel_velocity : R)
    (d : draws) (v1 v2 : vec3) :
  velocities self !! idx1 = Some v1 ->
  velocities self !! idx2 = Some v2 ->
  ~ rand_accept d > norm (vsub v1 v2) / max_rel_velocity ->
  rand_type d > p_inelastic self ->
  let CM := vscale 0.5 (vadd v1 v2) in
  let w := vscale (norm (vsub v1 v2))
             (random_unit_vector (rand_theta d) (rand_phi d)) in
  let self' := (perform_collision self idx1 idx2 max_rel_velocity d).1 in
  velocities self' =
    <[idx2 := vsub CM (vscale 0.5 w)]>
      (<[idx1 := vadd CM (vscale 0.5 w)]> (velocities self)) /\
  rotational_energy self' = rotational_energy self /\
  elastic_collisions self' = S (elastic_collisions self) /\
  inelastic_collisions self' = inelastic_collisions self /\
  rejected_collisions self' = rejected_collisions self /\
  (perform_collision self idx1 idx2 max_rel_velocity d).2 = Ok tt.
Proof.
  intros H1 H2 Hacc Hel. cbv zeta.
  unfold perform_collision. rewrite H1, H2.
  unfold calculate_relative_velocity.
  destruct (Rgt_dec _ _) as [? | _]; [done |].
  destruct (Rgt_dec _ _) as [_ | ?]; [| done]. done.
Qed.

Lemma rejected_state
    (self : DSMCSimulation) (idx1 idx2 : nat) (max_rel_velocity : R)
    (d : draws) (v1 v2 : vec3) :
  velocities self !! idx1 = Some v1 ->
  velocities self !! idx2 = Some v2 ->
  rand_accept d > norm (vsub v1 v2) / max_rel_velocity ->
  perform_collision self idx1 idx2 max_rel_velocity d =
  (set_rejected_collisions (S (rejected_collisions self)) self, Ok tt).
Proof.
  intros H1 H2 Hrej. unfold perform_collision. rewrite H1, H2.
  unfold calculate_relative_velocity.
  destruct (Rgt_dec _ _) as [_ | ?]; done.
Qed.

Lemma inelastic_counters
    (self : DSMCSimulation) (idx1 idx2 : nat) (max_rel_velocity : R)
    (d : draws) (v1 v2 : vec3) :
  velocities self !! idx1 = Some v1 ->
  velocities self !! idx2 = Some v2 ->
  ~ rand_accept d > norm (vsub v1 v2) / max_rel_velocity ->
  ~ rand_type d > p_inelastic self ->
  elastic_collisions (perform_collision self idx1 idx2 max_rel_velocity d).1
    = elastic_collisions self /\
  inelastic_collisions (perform_collision self idx1 idx2 max_rel_velocity d).1
    = S (inelastic_collisions self) /\
  rejected_collisions (perform_collision self idx1 idx2 max_rel_velocity d).1
    = rejected_collisions self.
Proof.
  intros H1 H2 Hacc Hinel. unfold perform_collision. rewrite H1, H2.
  unfold calculate_relative_velocity.
  destruct (Rgt_dec _ _) as [? | _]; [done |].
  destruct (Rgt_dec _ _) as [? | _]; [done |]. simpl.
  repeat case_match; done.
Qed.

(** X1.  [perform_collision] raises [IndexError] and leaves the object as it
    was when one of the two indices is outside the velocity array.
    Otherwise no counter decreases and exactly one of the three counters
    grows by one: the rejection counter when the random number exceeds the
    acceptance probability (velocities and rotational energies are then
    unchanged), the elastic counter when the collision is accepted and the
    second random number exceeds [p_inelastic] (the rotational energies are
    then unchanged), the inelastic counter in the remaining case. *)
Theorem perform_collision_counts_one_attempt
    (self : DSMCSimulation) (idx1 idx2 : nat) (max_rel_velocity : R)
    (d : draws) :
  let r := perform_collision self idx1 idx2 max_rel_velocity d in
  ((velocities self !! idx1 = None \/ velocities self !! idx2 = None) ->
   r = (self, Raise IndexError)) /\
  (forall v1 v2,
     velocities self !! idx1 = Some v1 ->
     velocities self !! idx2 = Some v2 ->
     (elastic_collisions self <= elastic_collisions r.1)%nat /\
     (inelastic_collisions self <= inelastic_collisions r.1)%nat /\
     (rejected_collisions self <= rejected_collisions r.1)%nat /\
     attempts r.1 = S (attempts self) /\
     (rand_accept d > norm (vsub v1 v2) / max_rel_velocity ->
      rejected_collisions r.1 = S (rejected_collisions self) /\
      velocities r.1 = velocities self /\
      rotational_energy r.1 = rotational_energy self /\ r.2 = Ok tt) /\
     (~ rand_accept d > norm (vsub v1 v2) / max_rel_velocity ->
      rand_type d > p_inelastic self ->
      elastic_collisions r.1 = S (elastic_collisions self) /\
      rotational_energy r.1 = rotational_energy self /\ r.2 = Ok tt) /\
     (~ rand_accept d > norm (vsub v1 v2) / max_rel_velocity ->
      ~ rand_type d > p_inelastic self ->
      inelastic_collisions r.1 = S (inelastic_collisions self))).
Proof.
  cbv zeta. split.
  - intros [H | H]; unfold perform_collision; rewrite H; [done |].
    by destruct (velocities self !! idx1).
  - intros v1 v2 H1 H2.
    destruct (Rgt_dec (rand_accept d) (norm (vsub v1 v2) / max_rel_velocity))
      as [Hrej | Hacc].
    { rewrite (rejected_state self idx1 idx2 max_rel_velocity d v1 v2) by done.
      unfold attempts. simpl. split_and!; try done; try lia. }
    destruct (Rgt_dec (rand_type d) (p_inelastic self)) as [Hel | Hinel].
    { destruct (elastic_state self idx1 idx2 max_rel_velocity d v1 v2)
        as (_ & Hrot & He & Hi & Hr & Hok); try done.
      unfold attempts. rewrite He, Hi, Hr. split_and!; try done; try lia. }
    pose proof (inelastic_counters self idx1 idx2 max_rel_velocity d v1 v2
                  H1 H2 Hacc Hinel) as Hcnt.
    destruct Hcnt as (He & Hi & Hr).
    unfold attempts. rewrite He, Hi, Hr. split_and!; try done; lia.
Qed.

(** ** Total energy of the system *)

Lemma sum_R_insert (l : list R) (i : nat) (x y : R) :
  l !! i = Some x -> sum_R (<[i := y]> l) = sum_R l - x + y.
Proof.
  revert i. induction l as [| a l IH]; intros [| i] H; simpl in *;
    try done.
  - injection H as ->. lra.
  - rewrite (IH i H). lra.
Qed.

Lemma map_insert {A B} (f : A -> B) (l : list A) (i : nat) (y : A) :
  map f (<[i := y]> l) = <[i := f y]> (map f l).
Proof.
  revert i. induction l as [| a l IH]; intros [| i]; simpl; try done.
  by rewrite IH.
Qed.

Lemma map_lookup {A B} (f : A -> B) (l : list A) (i : nat) (x : A) :
  l !! i = Some x -> map f l !! i = Some (f x).
Proof.
  revert i. induction l as [| a l IH]; intros [| i] H; simpl in *;
    try done.
  - by injection H as ->.
  - by apply IH.
Qed.

Lemma sum_R_two_inserts (l : list R) (i j : nat) (x1 x2 y1 y2 : R) :
  i <> j -> l !! i = Some x1 -> l !! j = Some x2 ->
  sum_R (<[j := y2]> (<[i := y1]> l)) = sum_R l - (x1 + x2) + (y1 + y2).
Proof.
  intros Hne Hi Hj.
  rewrite (sum_R_insert _ j x2), (sum_R_insert _ i x1) by
    (try done; by rewrite list_lookup_insert_ne).
  lra.
Qed.

(** The kinetic energy of a pair, split into the energy of the centre of
    mass and the energy of the relative motion. *)
Lemma kinetic_energy_split (cm w : vec3) :
  compute_kinetic_energy (vadd cm (vscale 0.5 w))
  + compute_kinetic_energy (vsub cm (vscale 0.5 w))
  = m_H2 * vsum (vsq cm) + 0.25 * m_H2 * vsum (vsq w).
Proof.
  destruct cm, w. unfold compute_kinetic_energy. vec_simpl.
  rewrite half_dec, quarter_dec. field.
Qed.

Lemma kinetic_energy_pair (v1 v2 : vec3) :
  compute_kinetic_energy v1 + compute_kinetic_energy v2
  = m_H2 * vsum (vsq (vscale 0.5 (vadd v1 v2)))
    + 0.25 * m_H2 * vsum (vsq (vsub v1 v2)).
Proof.
  destruct v1, v2. unfold compute_kinetic_energy. vec_simpl.
  rewrite half_dec, quarter_dec. field.
Qed.

Lemma cm_frame_energy_relative (v1 v2 : vec3) :
  cm_frame_energy v1 v2 (vscale 0.5 (vadd v1 v2))
  = 0.25 * m_H2 * vsum (vsq (vsub v1 v2)).
Proof.
  destruct v1, v2. vec_simpl. rewrite half_dec, quarter_dec. field.
Qed.

Lemma elastic_relative_energy (r : vec3) (u1 u2 : R) :
  vsum (vsq (vscale (norm r) (random_unit_vector u1 u2))) = vsum (vsq r).
Proof.
  rewrite vsum_vsq_vscale, unit_vector_sq. unfold norm.
  rewrite sqrt_sqrt by apply vsum_vsq_nonneg. lra.
Qed.

Lemma compute_kinetic_energy_nonneg (v : vec3) :
  0 <= compute_kinetic_energy v.
Proof.
  unfold compute_kinetic_energy. pose proof m_H2_pos.
  pose proof (vsum_vsq_nonneg v). apply Rmult_le_pos; lra.
Qed.

Lemma collision_total_energy
    (self : DSMCSimulation) (idx1 idx2 : nat) (max_rel_velocity : R)
    (d : draws) (v1 v2 : vec3) (rot1 rot2 : R) :
  idx1 <> idx2 ->
  velocities self !! idx1 = Some v1 ->
  velocities self !! idx2 = Some v2 ->
  rotational_energy self !! idx1 = Some rot1 ->
  rotational_energy self !! idx2 = Some rot2 ->
  0 <= rot1 -> 0 <= rot2 -> 0 <= beta_trans d <= 1 ->
  let self' := (perform_collision self idx1 idx2 max_rel_velocity d).1 in
  (calculate_total_energy self').2 = (calculate_total_energy self).2 /\
  ((rand_accept d > norm (vsub v1 v2) / max_rel_velocity \/
    rand_type d > p_inelastic self) ->
   calculate_total_energy self' = calculate_total_energy self).
Proof.
  intros Hne H1 H2 Hr1 Hr2 Hp1 Hp2 Hbeta. cbv zeta.
  destruct (Rgt_dec (rand_accept d) (norm (vsub v1 v2) / max_rel_velocity))
    as [Hrej | Hacc].
  { rewrite (rejected_state self idx1 idx2 max_rel_velocity d v1 v2) by done.
    done. }
  destruct (Rgt_dec (rand_type d) (p_inelastic self)) as [Hel | Hinel].
  { destruct (elastic_state self idx1 idx2 max_rel_velocity d v1 v2)
      as (Hv & Hrot & _); try done.
    assert (Heq : calculate_total_energy
                    (perform_collision self idx1 idx2 max_rel_velocity d).1
                  = calculate_total_energy self).
    { unfold calculate_total_energy. rewrite Hv, Hrot.
      rewrite !map_insert.
      rewrite (sum_R_two_inserts _ idx1 idx2 (compute_kinetic_energy v1)
                 (compute_kinetic_energy v2))
        by (try done; by apply map_lookup).
      rewrite kinetic_energy_split, elastic_relative_energy.
      rewrite (kinetic_energy_pair v1 v2).
      do 2 f_equal; [f_equal |]; lra. }
    split; [by rewrite Heq | done]. }
  split; [| intros [? | ?]; done].
  destruct (inelastic_state self idx1 idx2 max_rel_velocity d v1 v2 rot1 rot2)
    as (Hv & Hrot & _); try done.
  unfold calculate_total_energy. cbn [snd]. rewrite Hv, Hrot.
  rewrite !map_insert.
  rewrite (sum_R_two_inserts _ idx1 idx2 (compute_kinetic_energy v1)
             (compute_kinetic_energy v2))
    by (try done; by apply map_lookup).
  rewrite (sum_R_two_inserts _ idx1 idx2 rot1 rot2) by done.
  rewrite kinetic_energy_split.
  set (CM := vscale 0.5 (vadd v1 v2)).
  set (E := cm_frame_energy v1 v2 CM + (rot1 + rot2)).
  assert (HE : 0 <= E * beta_trans d).
  { pose proof (cm_frame_energy_nonneg v1 v2 CM).
    apply Rmult_le_pos; [unfold E |]; lra. }
  rewrite (scattered_energy _ _ _ HE).
  rewrite (kinetic_energy_pair v1 v2). fold CM.
  pose proof (cm_frame_energy_relative v1 v2) as Hrel. fold CM in Hrel.
  unfold E. rewrite <- Hrel. lra.
Qed.

(** X2.  For two distinct particles with non-negative rotational energies and
    a Beta draw in [[0, 1]], [perform_collision] leaves the total energy
    reported by [calculate_total_energy] for the whole system unchanged in
    each of its three branches; a rejected or an elastic collision leaves
    the translational and the rotational totals unchanged too. *)
Theorem perform_collision_conserves_total_energy
    (self : DSMCSimulation) (idx1 idx2 : nat) (max_rel_velocity : R)
    (d : draws) (v1 v2 : vec3) (rot1 rot2 : R) :
  idx1 <> idx2 ->
  velocities self !! idx1 = Some v1 ->
  velocities self !! idx2 = Some v2 ->
  rotational_energy self !! idx1 = Some rot1 ->
  rotational_energy self !! idx2 = Some rot2 ->
  0 <= rot1 -> 0 <= rot2 -> 0 <= beta_trans d <= 1 ->
  let self' := (perform_collision self idx1 idx2 max_rel_velocity d).1 in
  (calculate_total_energy self').2 = (calculate_total_energy self).2 /\
  ((rand_accept d > norm (vsub v1 v2) / max_rel_velocity \/
    rand_type d > p_inelastic self) ->
   calculate_total_energy self' = calculate_total_energy self).
Proof. apply collision_total_energy. Qed.

(** ** How an inelastic collision splits the energy *)

(** X3.  An accepted inelastic collision gives the pair the fraction [f]
    (the Beta draw) of its available energy as translational energy in the
    centre-of-mass frame, so that the new relative speed is
    [sqrt (4 f E / m)], gives each of the two particles half of the
    remaining [(1 - f) E] as rotational energy, and touches no other
    particle. *)
Theorem inelastic_collision_split
    (self : DSMCSimulation) (idx1 idx2 : nat) (max_rel_velocity : R)
    (d : draws) (v1 v2 : vec3) (rot1 rot2 : R) :
  idx1 <> idx2 ->
  velocities self !! idx1 = Some v1 ->
  velocities self !! idx2 = Some v2 ->
  rotational_energy self !! idx1 = Some rot1 ->
  rotational_energy self !! idx2 = Some rot2 ->
  0 <= rot1 -> 0 <= rot2 -> 0 <= beta_trans d <= 1 ->
  ~ rand_accept d > norm (vsub v1 v2) / max_rel_velocity ->
  ~ rand_type d > p_inelastic self ->
  let self' := (perform_collision self idx1 idx2 max_rel_velocity d).1 in
  let CM := vscale 0.5 (vadd v1 v2) in
  let E_total := cm_frame_energy v1 v2 CM + (rot1 + rot2) in
  let f := beta_trans d in
  exists v1' v2',
    velocities self' !! idx1 = Some v1' /\
    velocities self' !! idx2 = Some v2' /\
    cm_frame_energy v1' v2' CM = f * E_total /\
    norm (vsub v1' v2') = sqrt (4 * (f * E_total) / m_H2) /\
    rotational_energy self' !! idx1 = Some ((1 - f) * E_total / 2) /\
    rotational_energy self' !! idx2 = Some ((1 - f) * E_total / 2) /\
    (forall k, k <> idx1 -> k <> idx2 ->
       velocities self' !! k = velocities self !! k /\
       rotational_energy self' !! k = rotational_energy self !! k).
Proof.
  intros Hne H1 H2 Hr1 Hr2 Hp1 Hp2 Hbeta Hacc Hinel. cbv zeta.
  destruct (inelastic_state self idx1 idx2 max_rel_velocity d v1 v2 rot1 rot2)
    as (Hv & Hrot & _); try done.
  rewrite Hv, Hrot.
  set (CM := vscale 0.5 (vadd v1 v2)).
  set (E := cm_frame_energy v1 v2 CM + (rot1 + rot2)).
  assert (HE : 0 <= E * beta_trans d).
  { pose proof (cm_frame_energy_nonneg v1 v2 CM).
    apply Rmult_le_pos; [unfold E |]; lra. }
  eexists _, _.
  erewrite !lookup_two_inserts_1, !lookup_two_inserts_2 by done.
  split_and!; try done.
  - rewrite cm_frame_energy_split, (scattered_energy _ _ _ HE). lra.
  - rewrite vsub_cm_split, norm_vscale by apply sqrt_pos.
    rewrite random_unit_vector_norm, Rmult_1_r.
    f_equal. lra.
  - f_equal. lra.
  - f_equal. lra.
  - intros k Hk1 Hk2. by rewrite !list_lookup_insert_ne.
Qed.

(** ** The maximum relative speed *)

Lemma norm_vsub_sym (a b : vec3) : norm (vsub a b) = norm (vsub b a).
Proof. unfold norm. f_equal. destruct a, b. vec_simpl. ring. Qed.

Lemma max_rel_inner_spec (self : DSMCSimulation) (idx1 : nat)
    (later : list nat) (acc m : R) :
  max_rel_inner self idx1 later acc = Ok m ->
  acc <= m /\
  (forall idx2 v1 v2, idx2 ∈ later ->
     velocities self !! idx1 = Some v1 -> velocities self !! idx2 = Some v2 ->
     norm (vsub v1 v2) <= m) /\
  (m = acc \/
   exists idx2 v1 v2, idx2 ∈ later /\
     velocities self !! idx1 = Some v1 /\ velocities self !! idx2 = Some v2 /\
     m = norm (vsub v1 v2)).
Proof.
  revert acc. induction later as [| j later IH]; intros acc; simpl.
  - intros [= ->]. split_and!; [lra | | by left].
    intros idx2 v1 v2 Hin. by apply not_elem_of_nil in Hin.
  - destruct (velocities self !! idx1) as [w1|] eqn:H1; [| done].
    destruct (velocities self !! j) as [w2|] eqn:H2; [| done].
    unfold calculate_relative_velocity. intros Hm.
    destruct (IH _ Hm) as (Hle & Hall & Hatt). clear IH.
    split_and!.
    + destruct (Rgt_dec _ _); lra.
    + intros idx2 v1 v2 Hin [= <-] Hv2.
      apply elem_of_cons in Hin as [-> | Hin].
      * rewrite H2 in Hv2. injection Hv2 as <-.
        destruct (Rgt_dec _ _); lra.
      * by apply (Hall idx2).
    + destruct Hatt as [-> | (idx2 & v1 & v2 & Hin & Hv1 & Hv2 & ->)].
      * destruct (Rgt_dec _ _); [right | by left].
        exists j, w1, w2. split_and!; try done. apply elem_of_cons. by left.
      * right. exists idx2, v1, v2. split_and!; try done.
        apply elem_of_cons. by right.
Qed.

Lemma max_rel_outer_spec (self : DSMCSimulation) (particles : list nat)
    (acc m : R) :
  max_rel_outer self particles acc = Ok m ->
  acc <= m /\
  (forall a b i j v1 v2, (a < b)%nat ->
     particles !! a = Some i -> particles !! b = Some j ->
     velocities self !! i = Some v1 -> velocities self !! j = Some v2 ->
     norm (vsub v1 v2) <= m) /\
  (m = acc \/
   exists a b i j v1 v2, (a < b)%nat /\
     particles !! a = Some i /\ particles !! b = Some j /\
     velocities self !! i = Some v1 /\ velocities self !! j = Some v2 /\
     m = norm (vsub v1 v2)).
Proof.
  revert acc. induction particles as [| idx1 later IH]; intros acc; simpl.
  - intros [= ->]. split_and!; [lra | | by left].
    intros a b i j v1 v2 _ Ha. done.
  - destruct (max_rel_inner self idx1 later acc) as [m1 | e] eqn:Hin;
      [| done].
    intros Hm. destruct (max_rel_inner_spec _ _ _ _ _ Hin)
      as (Hle1 & Hall1 & Hatt1).
    destruct (IH _ Hm) as (Hle & Hall & Hatt). clear IH.
    split_and!.
    + lra.
    + intros a b i j v1 v2 Hab Ha Hb Hv1 Hv2.
      destruct b as [| b]; [lia |]. simpl in Hb.
      destruct a as [| a]; simpl in Ha.
      * injection Ha as <-.
        assert (norm (vsub v1 v2) <= m1); [| lra].
        apply (Hall1 j); try done. by eapply list_elem_of_lookup_2.
      * apply (Hall a b i j); try done. lia.
    + destruct Hatt as [-> | (a & b & i & j & v1 & v2 & Hab & Ha & Hb & Hv1
                              & Hv2 & ->)].
      * destruct Hatt1 as [-> | (idx2 & v1 & v2 & Hj & Hv1 & Hv2 & ->)];
          [by left | right].
        apply list_elem_of_lookup_1 in Hj as [b Hb].
        exists 0%nat, (S b), idx1, idx2, v1, v2.
        split_and!; try done. lia.
      * right. exists (S a), (S b), i, j, v1, v2.
        split_and!; try done. lia.
Qed.

(** X4.  On a cell whose indices are inside the arrays,
    [max_relative_velocity_in_cell] returns a non-negative number that
    bounds the relative speed of every pair of distinct positions of the
    cell and that is either 0 or the relative speed of one such pair; a
    cell of fewer than two particles gives 0. *)
Theorem max_relative_velocity_is_maximum (self : DSMCSimulation)
    (particles_in_cell : list nat) :
  cell_ok self particles_in_cell ->
  exists m,
    max_relative_velocity_in_cell self particles_in_cell = Ok m /\
    0 <= m /\
    (forall a b i j v1 v2, a <> b ->
       particles_in_cell !! a = Some i -> particles_in_cell !! b = Some j ->
       velocities self !! i = Some v1 -> velocities self !! j = Some v2 ->
       norm (vsub v1 v2) <= m) /\
    (m = 0 \/
     exists a b i j v1 v2, (a < b)%nat /\
       particles_in_cell !! a = Some i /\ particles_in_cell !! b = Some j /\
       velocities self !! i = Some v1 /\ velocities self !! j = Some v2 /\
       m = norm (vsub v1 v2)) /\
    ((length particles_in_cell < 2)%nat -> m = 0).
Proof.
  intros Hcell.
  destruct (max_relative_velocity_in_cell_ok self particles_in_cell Hcell)
    as (m & Hm & Hpos).
  exists m. split; [done |]. split; [done |].
  destruct (max_rel_outer_spec self particles_in_cell 0 m Hm)
    as (_ & Hall & Hatt).
  split_and!.
  - intros a b i j v1 v2 Hab Ha Hb Hv1 Hv2.
    destruct (Nat.lt_total a b) as [Hlt | [-> | Hgt]]; [| done |].
    + by apply (Hall a b i j).
    + rewrite norm_vsub_sym. by apply (Hall b a j i).
  - done.
  - intros Hlen.
    destruct Hatt as [-> | (a & b & i & j & _ & _ & Hab & Ha & Hb & _)];
      [done |].
    apply lookup_lt_Some in Hb. lia.
Qed.

(** ** The acceptance test *)

Lemma norm_vsub_diag (v : vec3) : norm (vsub v v) = 0.
Proof.
  unfold norm. replace (vsum (vsq (vsub v v))) with 0; [apply sqrt_0 |].
  destruct v. vec_simpl. ring.
Qed.

(** X5.  The acceptance test of [perform_collision], for a positive maximum
    relative speed: a pair whose relative speed is at least the maximum is
    never rejected by a random number below 1, a random number of 0 rejects
    no pair, and a pair of equal velocities is rejected by every positive
    random number. *)
Theorem acceptance_test
    (self : DSMCSimulation) (idx1 idx2 : nat) (max_rel_velocity : R)
    (d : draws) (v1 v2 : vec3) :
  velocities self !! idx1 = Some v1 ->
  velocities self !! idx2 = Some v2 ->
  0 < max_rel_velocity ->
  let r := perform_collision self idx1 idx2 max_rel_velocity d in
  (max_rel_velocity <= norm (vsub v1 v2) -> rand_accept d < 1 ->
   rejected_collisions r.1 = rejected_collisions self) /\
  (rand_accept d <= 0 ->
   rejected_collisions r.1 = rejected_collisions self) /\
  (v1 = v2 -> 0 < rand_accept d ->
   r = (set_rejected_collisions (S (rejected_collisions self)) self, Ok tt)).
Proof.
  intros H1 H2 Hmax. cbv zeta.
  assert (Hcount : ~ rand_accept d > norm (vsub v1 v2) / max_rel_velocity ->
            rejected_collisions
              (perform_collision self idx1 idx2 max_rel_velocity d).1
            = rejected_collisions self).
  { intros Hacc.
    destruct (Rgt_dec (rand_type d) (p_inelastic self)) as [Hel | Hinel].
    - by destruct (elastic_state self idx1 idx2 max_rel_velocity d v1 v2)
        as (_ & _ & _ & _ & Hr & _).
    - by destruct (inelastic_counters self idx1 idx2 max_rel_velocity d v1 v2)
        as (_ & _ & Hr). }
  split_and!.
  - intros Hnorm Hu. apply Hcount.
    assert (1 <= norm (vsub v1 v2) / max_rel_velocity); [| lra].
    apply Rmult_le_reg_r with max_rel_velocity; [done |].
    unfold Rdiv. rewrite Rmult_assoc, Rinv_l by lra. lra.
  - intros Hu. apply Hcount.
    assert (0 <= norm (vsub v1 v2) / max_rel_velocity); [| lra].
    apply Rmult_le_pos; [apply norm_nonneg |].
    left. by apply Rinv_0_lt_compat.
  - intros -> Hu. apply (rejected_state _ _ _ _ _ v2 v2); try done.
    rewrite norm_vsub_diag. unfold Rdiv. rewrite Rmult_0_l. lra.
Qed.

(** ** The cells after assignment *)

Lemma assign_particle_cell (i : nat) (self : DSMCSimulation) :
  assign_particle i self =
  match particle_cell self i with
  | Some key => (set_cells (cell_append (cells self) key i) self, Ok tt)
  | None => (self, Raise IndexError)
  end.
Proof.
  unfold assign_particle, particle_cell. repeat case_match; done.
Qed.

Lemma particle_cell_set_cells (c : cell_array) (self : DSMCSimulation)
    (i : nat) :
  particle_cell (set_cells c self) i = particle_cell self i.
Proof. reflexivity. Qed.

Lemma assign_loop_buckets (l : list nat) (self : DSMCSimulation) :
  (assign_loop l self).2 = Ok tt ->
  forall key,
    cells (assign_loop l self).1 key =
    cells self key ++ filter (fun i => particle_cell self i = Some key) l.
Proof.
  revert self. induction l as [| i l IH]; intros self; simpl.
  - intros _ key. by rewrite app_nil_r.
  - rewrite assign_particle_cell.
    destruct (particle_cell self i) as [k |] eqn:Hk; [| done].
    intros Hok key. rewrite (IH _ Hok key). simpl.
    change (filter (fun j => particle_cell
                     (set_cells (cell_append (cells self) k i) self) j
                   = Some key) l)
      with (filter (fun j => particle_cell self j = Some key) l).
    unfold cell_append. rewrite filter_cons.
    destruct (decide (key = k)) as [-> | Hne].
    + rewrite decide_True by done. by rewrite <- app_assoc.
    + rewrite decide_False by congruence. done.
Qed.

Lemma StronglySorted_lt_seq (j n : nat) :
  StronglySorted lt (seq j n).
Proof.
  revert j. induction n as [| n IH]; intros j; simpl; constructor.
  - apply IH.
  - apply Forall_seq. intros k Hk. lia.
Qed.

Lemma StronglySorted_filter {A} (R : relation A) (P : A -> Prop)
    `{forall x, Decision (P x)} (l : list A) :
  StronglySorted R l -> StronglySorted R (filter P l).
Proof.
  induction 1 as [| x l Hl IH Hx]; [constructor |].
  rewrite filter_cons. case_decide; [| done].
  constructor; [done |]. rewrite Forall_forall in Hx |- *.
  intros y Hy. apply Hx. by apply list_elem_of_filter in Hy as [_ ?].
Qed.

Lemma particle_cell_in_domain (self : DSMCSimulation) (i : nat) (p : vec3) :
  0 < domain_size self -> (1 <= n_cells self)%Z ->
  cell_size self = domain_size self / IZR (n_cells self) ->
  positions self !! i = Some p -> in_domain self p ->
  particle_cell self i =
  Some (cell_index self (vx p), cell_index self (vy p),
        cell_index self (vz p)).
Proof.
  intros Hd Hn Hcs Hp (Hx & Hy & Hz). unfold particle_cell. rewrite Hp.
  by rewrite !np_index_in_range by (by apply cell_index_bounds).
Qed.

(** X6.  With every position inside the box, [assign_to_cells] raises
    nothing and rebuilds the cells from scratch: particle [i] is listed in
    cell [(x, y, z)] exactly when these are the cell coordinates of its
    position, every cell lists its particles once and in increasing order,
    and every particle is listed in exactly one cell. *)
Theorem assign_to_cells_buckets (self : DSMCSimulation) :
  well_formed self -> 0 < domain_size self -> (1 <= n_cells self)%Z ->
  Forall (in_domain self) (positions self) ->
  let self' := (assign_to_cells self).1 in
  (assign_to_cells self).2 = Ok tt /\
  (forall x y z i,
     i ∈ cells self' (x, y, z) <->
     exists p, positions self !! i = Some p /\
       cell_index self (vx p) = x /\ cell_index self (vy p) = y /\
       cell_index self (vz p) = z) /\
  (forall key, NoDup (cells self' key) /\
               StronglySorted lt (cells self' key)) /\
  (forall i p, positions self !! i = Some p ->
     exists key, i ∈ cells self' key /\
       forall key', i ∈ cells self' key' -> key' = key).
Proof.
  intros Hwf Hd Hn Hpos. cbv zeta.
  pose proof (assign_to_cells_ok self Hwf Hd Hn Hpos) as Hok.
  destruct Hwf as (Hlp & _ & _ & Hcs).
  assert (Hb : forall key,
            cells (assign_to_cells self).1 key =
            filter (fun i => particle_cell self i = Some key)
              (py_range (n_particles self))).
  { intros key. unfold assign_to_cells in *.
    by rewrite (assign_loop_buckets _ _ Hok key). }
  assert (Hmem : forall x y z i,
            i ∈ cells (assign_to_cells self).1 (x, y, z) <->
            exists p, positions self !! i = Some p /\
              cell_index self (vx p) = x /\ cell_index self (vy p) = y /\
              cell_index self (vz p) = z).
  { intros x y z i. rewrite Hb, list_elem_of_filter. unfold py_range.
    rewrite elem_of_seq. split.
    - intros [Hk Hi].
      destruct (lookup_lt_is_Some_2 (positions self) i) as [p Hp]; [lia |].
      exists p. split; [done |].
      rewrite (particle_cell_in_domain self i p) in Hk; try done.
      + by injection Hk as <- <- <-.
      + by eapply (Forall_lookup_1 _ _ _ _ Hpos).
    - intros (p & Hp & <- & <- & <-). split.
      + apply particle_cell_in_domain; try done.
        by eapply (Forall_lookup_1 _ _ _ _ Hpos).
      + apply lookup_lt_Some in Hp. lia. }
  split_and!; try done.
  - intros key. rewrite Hb. split.
    + apply NoDup_filter, NoDup_seq.
    + apply StronglySorted_filter, StronglySorted_lt_seq.
  - intros i p Hp.
    exists (cell_index self (vx p), cell_index self (vy p),
            cell_index self (vz p)).
    split; [apply Hmem; by exists p |].
    intros [[x y] z] Hin. apply Hmem in Hin as (p' & Hp' & <- & <- & <-).
    rewrite Hp in Hp'. by injection Hp' as <-.
Qed.

(** ** Periodic wrapping *)

Lemma np_mod_small (x d : R) : 0 <= x < d -> np_mod x d = x.
Proof.
  intros [H0 H1]. unfold np_mod.
  rewrite (Zfloor_eq 0); [lra |].
  assert (Hd : 0 < d) by lra.
  split.
  - apply Rmult_le_pos; [done | left; by apply Rinv_0_lt_compat].
  - apply Rmult_lt_reg_r with d; [done |].
    unfold Rdiv. rewrite Rmult_assoc, Rinv_l by lra. lra.
Qed.

(** X7.  [update_positions] applies no wrap to a particle that stays inside
    the box: when the position of particle [i] advanced by [time_step]
    times its velocity lies in [[0, domain_size)] on every axis, that is
    its new position.  Velocities and rotational energies are not
    touched. *)
Theorem update_positions_inside_box (self : DSMCSimulation) (i : nat)
    (p v : vec3) :
  0 < domain_size self ->
  positions self !! i = Some p ->
  velocities self !! i = Some v ->
  let q := vadd p (vscale (time_step self) v) in
  in_domain self q ->
  positions (update_positions self) !! i = Some q /\
  velocities (update_positions self) = velocities self /\
  rotational_energy (update_positions self) = rotational_energy self.
Proof.
  intros Hd Hp Hv. cbv zeta. intros (Hx & Hy & Hz). split_and!.
  - rewrite update_positions_eq.
    assert (Hq : vmod (vadd p (vscale (time_step self) v)) (domain_size self)
                 = vadd p (vscale (time_step self) v)).
    { unfold vmod. rewrite !np_mod_small by done. by destruct (vadd _ _). }
    rewrite <- Hq.
    apply (map_lookup (fun p => vmod p (domain_size self))).
    apply lookup_zip_with_Some. by exists p, v.
  - done.
  - done.
Qed.

(** ** The surrogate's squashing functions *)

Lemma np_clip_bounds (x lo hi : R) :
  lo <= hi -> lo <= np_clip x lo hi <= hi.
Proof.
  intros H. unfold np_clip, Rmin, Rmax.
  repeat destruct (Rle_dec _ _); lra.
Qed.

Lemma np_clip_inside (x lo hi : R) : lo <= x <= hi -> np_clip x lo hi = x.
Proof.
  intros H. unfold np_clip, Rmin, Rmax.
  repeat destruct (Rle_dec _ _); lra.
Qed.

Lemma sigmoid_range (x : R) : 0 < sigmoid x < 1.
Proof.
  unfold sigmoid. pose proof (exp_pos (- x)) as He.
  assert (Hinv : 0 < / (1 + exp (- x))) by (apply Rinv_0_lt_compat; lra).
  split; [lra |].
  assert (/ (1 + exp (- x)) < / 1); [| rewrite Rinv_1 in *; lra].
  apply Rinv_lt_contravar; lra.
Qed.

Lemma sigmoid_logit (c : R) : 0 < c < 1 -> sigmoid (ln (c / (1 - c))) = c.
Proof.
  intros [H0 H1]. unfold sigmoid.
  assert (Hq : 0 < c / (1 - c)).
  { apply Rmult_lt_0_compat; [done | apply Rinv_0_lt_compat; lra]. }
  rewrite exp_Ropp, exp_ln by done. field. lra.
Qed.

Lemma logit_sigmoid (y : R) :
  ln (sigmoid y / (1 - sigmoid y)) = y.
Proof.
  unfold sigmoid. pose proof (exp_pos (- y)) as He.
  replace (1 / (1 + exp (- y)) / (1 - 1 / (1 + exp (- y))))
    with (/ exp (- y)) by (field; lra).
  rewrite <- exp_Ropp, Ropp_involutive. apply ln_exp.
Qed.

(** X8.  [sigmoid] after [inv_sigmoid] is the clipping of the argument to
    [[1e-9, 1 - 1e-9]], hence the identity on that interval, and
    [inv_sigmoid] after [sigmoid] is the identity wherever [sigmoid] lands
    in that interval. *)
Theorem sigmoid_inv_sigmoid (x : R) :
  sigmoid (inv_sigmoid x) = np_clip x 1e-9 (1 - 1e-9) /\
  (1e-9 <= x <= 1 - 1e-9 -> sigmoid (inv_sigmoid x) = x) /\
  (x <= 1e-9 -> sigmoid (inv_sigmoid x) = 1e-9) /\
  (1 - 1e-9 <= x -> sigmoid (inv_sigmoid x) = 1 - 1e-9) /\
  (forall y, 1e-9 <= sigmoid y <= 1 - 1e-9 -> inv_sigmoid (sigmoid y) = y).
Proof.
  assert (Hmain : sigmoid (inv_sigmoid x) = np_clip x 1e-9 (1 - 1e-9)).
  { unfold inv_sigmoid. cbv zeta. apply sigmoid_logit.
    pose proof (np_clip_bounds x 1e-9 (1 - 1e-9) ltac:(lra)). lra. }
  split_and!; [done | | | |].
  - intros H. rewrite Hmain. by apply np_clip_inside.
  - intros H. rewrite Hmain. unfold np_clip, Rmin, Rmax.
    repeat destruct (Rle_dec _ _); lra.
  - intros H. rewrite Hmain. unfold np_clip, Rmin, Rmax.
    repeat destruct (Rle_dec _ _); lra.
  - intros y Hy. unfold inv_sigmoid. cbv zeta.
    rewrite np_clip_inside by done. apply logit_sigmoid.
Qed.

Lemma sigmoid_increasing (x y : R) : x < y -> sigmoid x < sigmoid y.
Proof.
  intros Hxy. unfold sigmoid.
  pose proof (exp_pos (- x)). pose proof (exp_pos (- y)).
  assert (exp (- y) < exp (- x)) by (apply exp_increasing; lra).
  unfold Rdiv. rewrite !Rmult_1_l. apply Rinv_lt_contravar; [| lra].
  apply Rmult_lt_0_compat; lra.
Qed.

Lemma sigmoid_0' : sigmoid 0 = / 2.
Proof. unfold sigmoid. rewrite Ropp_0, exp_0. lra. Qed.

Lemma sigmoid_half (x : R) : 0 <= x -> / 2 <= sigmoid x.
Proof.
  intros [Hx | <-].
  - pose proof (sigmoid_increasing 0 x Hx) as H. rewrite sigmoid_0' in H. lra.
  - rewrite sigmoid_0'. lra.
Qed.

(** X9.  [mdn_energy_exchange] raises [AttributeError] without a model.
    With a model, each of the two fractions it returns is the sigmoid of
    one output of the model and lies between 0 and 1, bounds included,
    whatever the model predicts; the two are not normalised: when both
    outputs of the model are non-negative the fractions add up to at
    least 1. *)
Theorem mdn_energy_exchange_fractions :
  (forall (self : DSMCSimulation) (features : R * R * R),
     mdn_model self = None ->
     mdn_energy_exchange self features = Raise AttributeError) /\
  (forall (self : DSMCSimulation) (predict : predictor)
          (log_Ec inv_eps_t inv_eps_r1 : R),
     mdn_model self = Some predict ->
     exists eps_t_post eps_r1_post,
       mdn_energy_exchange self (log_Ec, inv_eps_t, inv_eps_r1)
         = Ok (eps_t_post, eps_r1_post) /\
       eps_t_post = sigmoid (predict log_Ec inv_eps_t inv_eps_r1).1 /\
       eps_r1_post = sigmoid (predict log_Ec inv_eps_t inv_eps_r1).2 /\
       0 <= eps_t_post <= 1 /\ 0 <= eps_r1_post <= 1 /\
       (0 <= (predict log_Ec inv_eps_t inv_eps_r1).1 ->
        0 <= (predict log_Ec inv_eps_t inv_eps_r1).2 ->
        1 <= eps_t_post + eps_r1_post)).
Proof.
  split.
  - intros self [[a b] c] Hm. unfold mdn_energy_exchange. by rewrite Hm.
  - intros self predict log_Ec inv_eps_t inv_eps_r1 Hm.
    unfold mdn_energy_exchange. rewrite Hm.
    destruct (predict log_Ec inv_eps_t inv_eps_r1) as [a b]. simpl.
    pose proof (sigmoid_range a) as Ha. pose proof (sigmoid_range b) as Hb.
    eexists _, _. split_and!; try done; try lra.
    intros Ha0 Hb0.
    pose proof (sigmoid_half a Ha0). pose proof (sigmoid_half b Hb0). lra.
Qed.

(** ** Scattering directions *)

(** X10.  For a first uniform number in [[0, 1]], [random_unit_vector]
    returns a vector of norm 1 whose third component is [1 - 2 u1] and
    whose first two components have squared length [4 u1 (1 - u1)]; for
    [u1 = 0] it is the pole [(0, 0, 1)] whatever the second number is. *)
Theorem random_unit_vector_on_sphere (u1 u2 : R) :
  0 <= u1 <= 1 ->
  let n := random_unit_vector u1 u2 in
  norm n = 1 /\
  vz n = 1 - 2 * u1 /\
  vx n * vx n + vy n * vy n = 4 * u1 * (1 - u1) /\
  (u1 = 0 -> n = V3 0 0 1).
Proof.
  intros Hu. cbv zeta.
  assert (Hz : vz (random_unit_vector u1 u2) = 1 - 2 * u1).
  { unfold random_unit_vector. cbn [vz]. apply cos_acos. lra. }
  pose proof (unit_vector_sq u1 u2) as Hsq.
  assert (Hxy : vx (random_unit_vector u1 u2) * vx (random_unit_vector u1 u2)
                + vy (random_unit_vector u1 u2) * vy (random_unit_vector u1 u2)
                = 4 * u1 * (1 - u1)).
  { unfold vsum, vsq in Hsq. cbn [vx vy vz] in Hsq. rewrite Hz in Hsq.
    lra. }
  split_and!; try done.
  - apply random_unit_vector_norm.
  - intros ->. 
    destruct (random_unit_vector 0 u2) as [x y z] eqn:E. cbn [vx vy vz] in *.
    assert (x * x + y * y = 0) by lra.
    assert (x = 0) by nra. assert (y = 0) by nra.
    f_equal; lra.
Qed.

(** ** The constructed object *)

Lemma init_fields (a : Args.t) (g : init_draws) (self : DSMCSimulation) :
  init a g = Ok self ->
  Args.Z_r a <> 0 /\ (0 < Args.n_cells a)%Z /\ (0 < Args.n_particles a)%Z /\
  self =
    mkSim (Args.n_particles a) (Args.n_steps a) (Args.T_tr_initial a)
      (Args.T_rot_initial a) (Args.Z_r a) (1 - 1 / Args.Z_r a)
      (Args.domain_size a) (Args.n_cells a) (Args.sigma_collision a)
      (sqrt (3 * k_B * Args.T_tr_initial a / m_H2))
      (0.2 * (Args.domain_size a / IZR (Args.n_cells a))
       / sqrt (3 * k_B * Args.T_tr_initial a / m_H2))
      (density / m_H2 * Args.domain_size a ^ 3 / IZR (Args.n_particles a))
      (0.5 * (density / m_H2 * Args.domain_size a ^ 3
              / IZR (Args.n_particles a))
       * PI * Args.sigma_collision a ^ 2
       * (0.2 * (Args.domain_size a / IZR (Args.n_cells a))
          / sqrt (3 * k_B * Args.T_tr_initial a / m_H2))
       / (Args.domain_size a ^ 3 / IZR (Args.n_cells a)))
      (Args.use_mdn a) (Args.mdn_model a)
      (initialize_positions (Args.n_particles a) (Args.domain_size a) g)
      (initialize_velocities (Args.n_particles a) (Args.T_tr_initial a) g)
      (replicate (Z.to_nat (Args.n_particles a))
         (0.5 * k_B * Args.T_rot_initial a * 1))
      (fun _ => []) (Args.domain_size a / IZR (Args.n_cells a))
      ((Args.domain_size a / IZR (Args.n_cells a)) ^ 3) [] [] []
      0%nat 0%nat 0%nat.
Proof.
  unfold init.
  destruct (Req_dec_T _ _); [done |].
  destruct (Z.eqb_spec (Args.n_cells a) 0); [done |].
  destruct (Z.eqb_spec (Args.n_particles a) 0); [done |].
  destruct (Z.ltb_spec (Args.n_particles a) 0); [done |].
  destruct (Z.ltb_spec (Args.n_cells a) 0); [done |].
  intros [= <-]. split_and!; try done; lia.
Qed.

Lemma scaled_uniform_in_box (L u : R) : 0 < L -> 0 <= u < 1 -> 0 <= L * u < L.
Proof. intros HL [H0 H1]. split; nra. Qed.

(** X11.  When the constructor returns, for a positive box size and uniform
    numbers in [[0, 1)]: the three particle arrays have one row per
    particle, row [i] of the positions is the box size times the [i]-th
    uniform row and lies inside the box, row [i] of the velocities is the
    thermal speed [sqrt (k_B T / m)] times the [i]-th normal row, every
    rotational energy is [0.5 k_B T_rot_initial], a call of
    [assign_to_cells] raises nothing, the three counters are 0 and the
    three histories are empty. *)
Theorem init_builds_valid_object (a : Args.t) (g : init_draws)
    (self : DSMCSimulation) :
  init a g = Ok self ->
  0 < Args.domain_size a ->
  valid_init_draws g ->
  well_formed self /\
  Forall (in_domain self) (positions self) /\
  (assign_to_cells self).2 = Ok tt /\
  (forall i, (i < Z.to_nat (Args.n_particles a))%nat ->
     rotational_energy self !! i = Some (0.5 * k_B * Args.T_rot_initial a * 1)
     /\ positions self !! i
        = Some (vscale (Args.domain_size a) (uniform_row g i))
     /\ velocities self !! i
        = Some (vscale (sqrt (k_B * Args.T_tr_initial a / m_H2))
                  (normal_row g i))) /\
  attempts self = 0%nat /\
  translational_energy_history self = [] /\
  rotational_energy_history self = [] /\
  total_energy_history self = [].
Proof.
  intros Hinit Hd Hg.
  destruct (init_well_formed a g self Hinit) as (Hwf & Hn & Hp).
  destruct (init_fields a g self Hinit) as (_ & _ & _ & Hself).
  assert (Hpos : Forall (in_domain self) (positions self)).
  { rewrite Hself. unfold in_domain. cbn [positions domain_size].
    unfold initialize_positions. apply Forall_map, Forall_forall.
    intros i _. destruct (Hg i) as (Hx & Hy & Hz). cbn [vscale vx vy vz].
    split_and!; by apply scaled_uniform_in_box. }
  assert (Hds : 0 < domain_size self) by (rewrite Hself; done).
  split_and!; try done.
  - apply assign_to_cells_ok; try done. lia.
  - intros i Hi. rewrite Hself.
    cbn [rotational_energy positions velocities].
    unfold initialize_positions, initialize_velocities, py_range.
    split_and!.
    + by apply lookup_replicate_2.
    + apply (map_lookup (fun i => vscale _ (uniform_row g i))).
      by rewrite lookup_seq_lt.
    + apply (map_lookup (fun i => vscale _ (normal_row g i))).
      by rewrite lookup_seq_lt.
  - by rewrite Hself.
  - by rewrite Hself.
  - by rewrite Hself.
  - by rewrite Hself.
Qed.

(** X12.  The constants that the constructor derives, for a positive
    translational temperature and box size: [p_inelastic] lies strictly
    between 0 and 1 when [Z_r > 1]; the time step is positive and is the
    time in which a particle at the speed [v_init] crosses a fifth of a
    cell; the cells tile the box and [volume_cell] is the volume of one of
    them; [coeff] divides by [domain_size^3 / n_cells], which is
    [n_cells^2] cell volumes and not one cell volume. *)
Theorem init_derived_constants (a : Args.t) (g : init_draws)
    (self : DSMCSimulation) :
  init a g = Ok self ->
  0 < Args.T_tr_initial a ->
  0 < Args.domain_size a ->
  (1 < Args.Z_r a -> 0 < p_inelastic self < 1) /\
  0 < time_step self /\
  v_init self * time_step self = 0.2 * cell_size self /\
  cell_size self * IZR (n_cells self) = domain_size self /\
  volume_cell self * IZR (n_cells self) ^ 3 = domain_size self ^ 3 /\
  coeff self =
    0.5 * (density / m_H2) * PI * sigma_collision self ^ 2 * time_step self
    * IZR (n_cells self) / IZR (n_particles self) /\
  coeff self * (IZR (n_cells self) ^ 2 * volume_cell self) =
    0.5 * eff_num self * PI * sigma_collision self ^ 2 * time_step self.
Proof.
  intros Hinit HT Hd.
  destruct (init_fields a g self Hinit) as (Hz & Hnc & Hnp & Hself).
  assert (Hnc' : 0 < IZR (Args.n_cells a)) by (by apply IZR_lt).
  assert (Hnp' : 0 < IZR (Args.n_particles a)) by (by apply IZR_lt).
  pose proof m_H2_pos as Hm.
  assert (Hv : 0 < sqrt (3 * k_B * Args.T_tr_initial a / m_H2)).
  { apply sqrt_lt_R0. apply Rdiv_lt_0_compat; [| done].
    unfold k_B. nra. }
  set (v := sqrt (3 * k_B * Args.T_tr_initial a / m_H2)) in *.
  rewrite Hself.
  cbn [p_inelastic time_step v_init cell_size n_cells domain_size volume_cell
       coeff sigma_collision n_particles eff_num].
  split_and!.
  - intros HZ. assert (0 < / Args.Z_r a < 1).
    { split; [apply Rinv_0_lt_compat; lra |].
      rewrite <- Rinv_1. apply Rinv_lt_contravar; lra. }
    lra.
  - apply Rdiv_lt_0_compat; [| done].
    apply Rmult_lt_0_compat; [lra | by apply Rdiv_lt_0_compat].
  - field. split; lra.
  - field. lra.
  - field. lra.
  - field. repeat split; lra.
  - field. repeat split; lra.
Qed.

(** ** The invariant of a run *)

Lemma perform_collision_keeps (self : DSMCSimulation) (idx1 idx2 : nat)
    (max_rel_velocity : R) (d : draws) :
  constants (perform_collision self idx1 idx2 max_rel_velocity d).1
    = constants self /\
  histories (perform_collision self idx1 idx2 max_rel_velocity d).1
    = histories self /\
  (elastic_collisions self
   <= elastic_collisions
        (perform_collision self idx1 idx2 max_rel_velocity d).1)%nat /\
  (inelastic_collisions self
   <= inelastic_collisions
        (perform_collision self idx1 idx2 max_rel_velocity d).1)%nat /\
  (rejected_collisions self
   <= rejected_collisions
        (perform_collision self idx1 idx2 max_rel_velocity d).1)%nat.
Proof.
  unfold perform_collision, constants, histories.
  repeat case_match; simpl; split_and!; try done; lia.
Qed.

Lemma assign_particle_keeps (i : nat) (self : DSMCSimulation) :
  constants (assign_particle i self).1 = constants self /\
  histories (assign_particle i self).1 = histories self /\
  elastic_collisions (assign_particle i self).1 = elastic_collisions self /\
  inelastic_collisions (assign_particle i self).1
    = inelastic_collisions self /\
  rejected_collisions (assign_particle i self).1 = rejected_collisions self.
Proof. unfold assign_particle. repeat case_match; done. Qed.

Lemma assign_loop_keeps (l : list nat) (self : DSMCSimulation) :
  constants (assign_loop l self).1 = constants self /\
  histories (assign_loop l self).1 = histories self /\
  elastic_collisions (assign_loop l self).1 = elastic_collisions self /\
  inelastic_collisions (assign_loop l self).1 = inelastic_collisions self /\
  rejected_collisions (assign_loop l self).1 = rejected_collisions self.
Proof.
  revert self. induction l as [| i l IH]; intros self; simpl; [done |].
  pose proof (assign_particle_keeps i self) as Hp.
  destruct (assign_particle i self) as [self' [[] | e]]; simpl in *;
    [| done].
  destruct (IH self') as (-> & -> & -> & -> & ->). done.
Qed.

Lemma transport_keeps (self : DSMCSimulation) :
  let self' := (assign_to_cells (update_positions self)).1 in
  constants self' = constants self /\
  histories self' = histories self /\
  elastic_collisions self' = elastic_collisions self /\
  inelastic_collisions self' = inelastic_collisions self /\
  rejected_collisions self' = rejected_collisions self /\
  velocities self' = velocities self /\
  rotational_energy self' = rotational_energy self.
Proof.
  cbv zeta.
  destruct (assign_to_cells_frame (update_positions self))
    as (_ & Hv & Hr & _).
  pose proof (assign_loop_keeps
                (py_range
                   (n_particles (initialize_cells (update_positions self))))
                (initialize_cells (update_positions self))) as Hk.
  unfold assign_to_cells in *. cbv zeta in *.
  destruct Hk as (Hc & Hh & He & Hi & Hj).
  rewrite Hc, Hh, He, Hi, Hj, Hv, Hr. done.
Qed.

Lemma assign_to_cells_NoDup (self : DSMCSimulation) :
  (assign_to_cells self).2 = Ok tt ->
  forall key, NoDup (cells (assign_to_cells self).1 key).
Proof.
  intros Hok key. unfold assign_to_cells in *. cbv zeta in *.
  rewrite (assign_loop_buckets _ _ Hok key). simpl.
  apply NoDup_filter, NoDup_seq.
Qed.

Lemma np_random_choice2_distinct (cell : list nat) (d : draws) :
  NoDup cell -> (2 <= length cell)%nat ->
  (np_random_choice2 cell d).1 <> (np_random_choice2 cell d).2.
Proof.
  intros Hnd Hlen. unfold np_random_choice2.
  pose proof (choice_positions_distinct (length cell) d Hlen) as Hne.
  destruct (choice_positions_lt (length cell) d ltac:(lia)) as [H1 H2].
  destruct (choice_positions (length cell) d) as [p1 p2]. simpl in *.
  destruct (lookup_lt_is_Some_2 cell p1 H1) as [x1 Hx1].
  destruct (lookup_lt_is_Some_2 cell p2 H2) as [x2 Hx2].
  rewrite (nth_lookup_Some _ _ _ _ Hx1), (nth_lookup_Some _ _ _ _ Hx2).
  intros ->. apply Hne. by eapply NoDup_lookup.
Qed.

Lemma total_energy_ext (a b : DSMCSimulation) :
  velocities b = velocities a -> rotational_energy b = rotational_energy a ->
  total_energy b = total_energy a.
Proof.
  intros Hv Hr. unfold total_energy, calculate_total_energy.
  by rewrite Hv, Hr.
Qed.

Lemma collision_attempt_run (self0 : DSMCSimulation) (g0 : rng)
    (h : list R * list R * list R) (cell : list nat) (vmax : R) :
  hoare (run_cell_inv self0 g0 h cell) (collision_attempt cell vmax)
    (fun _ => run_cell_inv self0 g0 h cell) never.
Proof.
  intros w (((Hsafe & Hconst & (N & Hatt & Hce & Hci & Hcr & Hrng) & Hen & Hnd)
             & Hh) & Hcell & Hlen & Hndc).
  pose proof (collision_attempt_safe cell vmax w
                (conj Hsafe (conj Hcell Hlen))) as Hs.
  rewrite collision_attempt_unfold in *. cbv zeta in *.
  set (d := w.2 0%nat) in *.
  set (i := (np_random_choice2 cell d).1) in *.
  set (j := (np_random_choice2 cell d).2) in *.
  destruct Hsafe as (Hwf & Hrot & Hg & Hd & Hn & Hcells).
  destruct (np_random_choice2_ok w.1 cell d Hcell ltac:(lia)) as [Hi1 Hi2].
  fold i in Hi1. fold j in Hi2.
  assert (Hbeta : 0 <= beta_trans d <= 1) by apply Hg.
  assert (Hlr : length (rotational_energy w.1) = length (velocities w.1)).
  { destruct Hwf as (_ & -> & -> & _). done. }
  destruct (perform_collision_ok w.1 i j vmax d Hi1 Hi2 Hlr Hrot Hbeta)
    as [Hok Hcount].
  destruct (perform_collision_keeps w.1 i j vmax d)
    as (Hk & Hkh & Hke & Hki & Hkr).
  pose proof (perform_collision_frame w.1 i j vmax d) as Hf.
  assert (Hne : i <> j) by (by apply np_random_choice2_distinct).
  destruct (lookup_lt_is_Some_2 _ _ Hi1) as [v1 Hv1].
  destruct (lookup_lt_is_Some_2 _ _ Hi2) as [v2 Hv2].
  rewrite <- Hlr in Hi1, Hi2.
  destruct (lookup_lt_is_Some_2 _ _ Hi1) as [r1 Hr1].
  destruct (lookup_lt_is_Some_2 _ _ Hi2) as [r2 Hr2].
  assert (Hp1 : 0 <= r1) by (by eapply (Forall_lookup_1 _ _ _ _ Hrot Hr1)).
  assert (Hp2 : 0 <= r2) by (by eapply (Forall_lookup_1 _ _ _ _ Hrot Hr2)).
  pose proof (proj1 (collision_total_energy w.1 i j vmax d v1 v2 r1 r2
                       Hne Hv1 Hv2 Hr1 Hr2 Hp1 Hp2 Hbeta)) as Henergy.
  destruct Hf as (_ & _ & _ & _ & _ & _ & _ & _ & Hcl & _ & Hlv & _).
  destruct (perform_collision w.1 i j vmax d) as [self' r].
  cbn [fst snd] in *. subst r.
  destruct Hs as (Hsafe' & Hcell' & _).
  unfold run_cell_inv, run_inv. cbn [fst snd].
  split_and!; try done.
  - congruence.
  - exists (S N). split_and!; try lia.
    intros k. unfold advance. rewrite Hrng. f_equal. lia.
  - unfold total_energy in *. congruence.
  - intros key. rewrite Hcl. apply Hnd.
  - congruence.
Qed.

Lemma sum_R_nonneg (l : list R) : Forall (fun x => 0 <= x) l -> 0 <= sum_R l.
Proof.
  induction 1 as [| x l Hx Hl IH]; unfold sum_R in *; simpl; lra.
Qed.

Lemma transport_run (self0 : DSMCSimulation) (g0 : rng)
    (h : list R * list R * list R) (w : world) :
  run_inv self0 g0 w /\ histories w.1 = h ->
  (assign_to_cells (update_positions w.1)).2 = Ok tt /\
  (run_inv self0 g0 ((assign_to_cells (update_positions w.1)).1, w.2) /\
   histories (assign_to_cells (update_positions w.1)).1 = h).
Proof.
  intros ((Hsafe & Hconst & (N & Hatt & Hce & Hci & Hcr & Hrng) & Hen & Hnd)
          & Hh).
  destruct (transport_safe w Hsafe) as [Hok Hsafe'].
  destruct (transport_keeps w.1) as (Hc & Hhist & He & Hi & Hr & Hv & Hrot).
  split; [done |]. unfold run_inv. cbn [fst snd].
  split_and!; try done; try congruence.
  - exists N. unfold attempts in *. rewrite He, Hi, Hr.
    split_and!; try done; lia.
  - rewrite <- Hen. by apply total_energy_ext.
  - by apply assign_to_cells_NoDup.
Qed.

Lemma collide_cell_run (self0 : DSMCSimulation) (g0 : rng)
    (h : list R * list R * list R) (i j k : nat) :
  hoare (fun w => run_inv self0 g0 w /\ histories w.1 = h)
    (self <- get_self ;; collide_cell (get_cell self i j k))
    (fun _ w => run_inv self0 g0 w /\ histories w.1 = h) never.
Proof.
  set (I := fun w : world => run_inv self0 g0 w /\ histories w.1 = h).
  apply (hoare_bind _ _ _ (fun self w => I w /\ self = w.1));
    [apply hoare_get_self | intros self].
  set (cell := get_cell self i j k).
  apply (hoare_weaken _ (fun w => I w /\ cell_ok w.1 cell /\ NoDup cell) _
           _ (fun _ w => I w /\ cell_ok w.1 cell /\ NoDup cell) _ never).
  - apply (collide_cell_hoare _ (run_cell_inv self0 g0 h cell)).
    + intros w (Hw & Hcell & Hnd) Hlen.
      destruct (max_relative_velocity_in_cell_ok w.1 cell Hcell)
        as (m & -> & _). done.
    + by intros w (? & ? & _ & ?).
    + apply collision_attempt_run.
  - intros w [Hw ->]. split; [done |].
    destruct Hw as ((Hsafe & _ & _ & _ & Hnd) & _).
    split; [apply Hsafe | apply Hnd].
  - by intros _ w [? _].
  - done.
Qed.

Lemma dsmc_step_run (self0 : DSMCSimulation) (g0 : rng)
    (h : list R * list R * list R) :
  hoare (fun w => run_inv self0 g0 w /\ histories w.1 = h) dsmc_step
    (fun _ w => run_inv self0 g0 w /\ histories w.1 = h) never.
Proof.
  apply (dsmc_step_spec _ (fun w => run_inv self0 g0 w /\ histories w.1 = h)).
  - intros w Hw. by destruct (transport_run self0 g0 h w Hw) as [-> ?].
  - apply collide_cell_run.
Qed.

Lemma record_energies_run (self0 : DSMCSimulation) (g0 : rng) (w : world) :
  run_inv self0 g0 w ->
  run_inv self0 g0 (record_energies w.1, w.2) /\
  histories (record_energies w.1) =
    (translational_energy_history w.1
       ++ [(calculate_total_energy w.1).1.1],
     rotational_energy_history w.1 ++ [(calculate_total_energy w.1).1.2],
     total_energy_history w.1 ++ [total_energy self0]) /\
  (calculate_total_energy w.1).1.1 + (calculate_total_energy w.1).1.2
    = total_energy self0 /\
  0 <= (calculate_total_energy w.1).1.2.
Proof.
  intros (Hsafe & Hconst & Hcount & Hen & Hnd).
  split; [done |]. split; [| split].
  - unfold histories, record_energies, total_energy in *.
    by rewrite <- Hen.
  - rewrite <- Hen. unfold total_energy, calculate_total_energy.
    cbn [fst snd]. lra.
  - unfold calculate_total_energy. cbn [fst snd].
    destruct Hsafe as (_ & Hrot & _). by apply sum_R_nonneg.
Qed.

Lemma run_steps_full (self0 : DSMCSimulation) (g0 : rng) (steps : nat)
    (w : world) :
  run_inv self0 g0 w ->
  (run_steps steps w).2 = Ok tt /\
  run_inv self0 g0 (run_steps steps w).1 /\
  histories_extended self0 steps (histories w.1)
    (histories (run_steps steps w).1.1).
Proof.
  revert w. induction steps as [| n IH]; intros w Hinv.
  - change (run_steps 0 w) with (w, Ok tt).
    split; [done |]. split; [done |]. exists [], [].
    split_and!; try done; try constructor.
    unfold histories. cbn [fst snd replicate]. by rewrite !app_nil_r.
  - pose proof (dsmc_step_run self0 g0 (histories w.1) w (conj Hinv eq_refl))
      as Hstep.
    destruct (dsmc_step w) as [w1 [[] | e]] eqn:Hds; [| done].
    destruct Hstep as [Hinv1 Hh1].
    assert (Hrun : run_steps (S n) w
                   = run_steps n (record_energies w1.1, w1.2)).
    { unfold run_steps. cbn [repeat_M]. unfold bind at 1. unfold bind at 1.
      by rewrite Hds. }
    rewrite Hrun.
    destruct (record_energies_run self0 g0 w1 Hinv1)
      as (Hinv2 & Hh2 & Hsum & Hrpos).
    destruct (IH (record_energies w1.1, w1.2) Hinv2) as (Hok & Hinv3 & Hext).
    split; [done |]. split; [done |].
    destruct Hext as (ks & rs & Hlk & Hlr & Hf2 & Hfr & Hafter).
    cbn [fst snd] in Hafter. rewrite Hh2 in Hafter. cbn [fst snd] in Hafter.
    exists ((calculate_total_energy w1.1).1.1 :: ks),
           ((calculate_total_energy w1.1).1.2 :: rs).
    split_and!; simpl; try lia.
    + by constructor.
    + by constructor.
    + rewrite Hafter. unfold histories in Hh1.
      injection Hh1 as -> -> ->.
      unfold histories. cbn [fst snd].
      by rewrite <- !app_assoc.
Qed.

Lemma init_run_inv (a : Args.t) (g0 : init_draws) (g : rng)
    (self0 : DSMCSimulation) :
  init a g0 = Ok self0 -> physical a -> valid_rng g ->
  run_inv self0 g (self0, g).
Proof.
  intros Hinit (_ & HT & Hd) Hg.
  split; [by apply (init_safe_inv a g0) |].
  split; [done |]. split; [| split; [done |]].
  - exists 0%nat. split_and!; try done; lia.
  - intros key. destruct (init_fields a g0 self0 Hinit) as (_ & _ & _ & ->).
    cbn. constructor.
Qed.

(** ** Whole runs *)

Lemma init_histories (a : Args.t) (g0 : init_draws) (self0 : DSMCSimulation) :
  init a g0 = Ok self0 -> histories self0 = ([], [], []) /\
  attempts self0 = 0%nat.
Proof.
  intros Hinit. by destruct (init_fields a g0 self0 Hinit) as (_ & _ & _ & ->).
Qed.


(** X14.  After the steps of such a run the three counters account for
    every collision attempt: the generator is left advanced by exactly
    [elastic_collisions + inelastic_collisions + rejected_collisions]
    records. *)
Theorem run_counts_every_attempt
    (a : Args.t) (g0 : init_draws) (g : rng) (self0 : DSMCSimulation)
    (steps : nat) :
  init a g0 = Ok self0 -> physical a -> valid_rng g ->
  let final := (run_steps steps (self0, g)).1 in
  forall j,
    final.2 j =
    g (elastic_collisions final.1 + inelastic_collisions final.1
       + rejected_collisions final.1 + j)%nat.
Proof.
  intros Hinit Hphys Hg. cbv zeta.
  destruct (run_steps_full self0 g steps (self0, g)
              (init_run_inv a g0 g self0 Hinit Hphys Hg))
    as (_ & (_ & _ & (N & Hatt & _ & _ & _ & Hrng) & _) & _).
  destruct (init_histories a g0 self0 Hinit) as [_ H0].
  intros j. rewrite Hrng. f_equal.
  unfold attempts in *. lia.
Qed.

(** X15.  A run changes none of the attributes that the constructor
    computes (sizes, temperatures, probabilities, time step, cell size and
    volume, the surrogate and its switch), keeps one row per particle in
    each of the three arrays, and decreases no counter. *)
Theorem run_keeps_constants
    (a : Args.t) (g0 : init_draws) (g : rng) (self0 : DSMCSimulation)
    (steps : nat) :
  init a g0 = Ok self0 -> physical a -> valid_rng g ->
  let final := (run_steps steps (self0, g)).1.1 in
  constants final = constants self0 /\
  length (positions final) = Z.to_nat (n_particles self0) /\
  length (velocities final) = Z.to_nat (n_particles self0) /\
  length (rotational_energy final) = Z.to_nat (n_particles self0) /\
  (elastic_collisions self0 <= elastic_collisions final)%nat /\
  (inelastic_collisions self0 <= inelastic_collisions final)%nat /\
  (rejected_collisions self0 <= rejected_collisions final)%nat.
Proof.
  intros Hinit Hphys Hg. cbv zeta.
  destruct (run_steps_full self0 g steps (self0, g)
              (init_run_inv a g0 g self0 Hinit Hphys Hg))
    as (_ & (((Hlp & Hlv & Hlr & _) & _) & Hc
             & (N & _ & He & Hi & Hr & _) & _) & _).
  assert (Hn : n_particles (run_steps steps (self0, g)).1.1
               = n_particles self0).
  { unfold constants in Hc. by injection Hc. }
  rewrite <- Hn. split_and!; done.
Qed.



(** ** Temperatures *)





(** ** The further theorems at concrete inputs *)

Lemma zero_init_draws_valid : valid_init_draws zero_init_draws.
Proof. intros i. cbn. lra. Defined.

Lemma two_particles_cell_ok : cell_ok two_particles [0%nat; 1%nat].
Proof. unfold cell_ok. cbn. repeat constructor; lia. Defined.

Lemma two_particles_in_domain :
  Forall (in_domain two_particles) (positions two_particles).
Proof.
  unfold in_domain.
  cbn [positions two_particles domain_size].
  apply Forall_cons; split; [cbn [vx vy vz]; lra |].
  apply Forall_cons; split; [cbn [vx vy vz]; lra |].
  apply Forall_nil; exact I.
Defined.

Lemma perform_collision_conserves_total_energy_witness :
  (calculate_total_energy
     (perform_collision two_particles 0 1 1 inelastic_draws).1).2
  = (calculate_total_energy two_particles).2.
Proof.
  exact (proj1 (perform_collision_conserves_total_energy two_particles 0 1 1
                  inelastic_draws (V3 1 0 0) (V3 0 0 0) 1 1 ltac:(lia)
                  eq_refl eq_refl eq_refl eq_refl ltac:(lra) ltac:(lra)
                  ltac:(cbn; lra))).
Defined.

Lemma inelastic_collision_split_witness :
  exists v1' v2',
    velocities (perform_collision two_particles 0 1 1 inelastic_draws).1
      !! 0%nat = Some v1' /\
    velocities (perform_collision two_particles 0 1 1 inelastic_draws).1
      !! 1%nat = Some v2' /\
    cm_frame_energy v1' v2' (vscale 0.5 (vadd (V3 1 0 0) (V3 0 0 0)))
    = beta_trans inelastic_draws
      * (cm_frame_energy (V3 1 0 0) (V3 0 0 0)
           (vscale 0.5 (vadd (V3 1 0 0) (V3 0 0 0))) + (1 + 1)).
Proof.
  destruct (inelastic_collision_split two_particles 0 1 1 inelastic_draws
              (V3 1 0 0) (V3 0 0 0) 1 1 ltac:(lia)
              eq_refl eq_refl eq_refl eq_refl ltac:(lra) ltac:(lra)
              ltac:(cbn; lra) (norm_accepts inelastic_draws _ eq_refl)
              ltac:(cbn; lra))
    as (v1' & v2' & H1 & H2 & He & _).
  exists v1', v2'. split; [exact H1 |]. split; [exact H2 | exact He].
Defined.

Lemma max_relative_velocity_is_maximum_witness :
  exists m,
    max_relative_velocity_in_cell two_particles [0%nat; 1%nat] = Ok m /\
    norm (vsub (V3 1 0 0) (V3 0 0 0)) <= m.
Proof.
  destruct (max_relative_velocity_is_maximum two_particles [0%nat; 1%nat]
              two_particles_cell_ok)
    as (m & Hm & _ & Hall & _).
  exists m. split; [exact Hm |].
  exact (Hall 0%nat 1%nat 0%nat 1%nat (V3 1 0 0) (V3 0 0 0) ltac:(lia)
           eq_refl eq_refl eq_refl eq_refl).
Defined.

Lemma acceptance_test_witness :
  rejected_collisions (perform_collision two_particles 0 1 1 elastic_draws).1
  = rejected_collisions two_particles.
Proof.
  exact (proj1 (proj2 (acceptance_test two_particles 0 1 1 elastic_draws
                         (V3 1 0 0) (V3 0 0 0) eq_refl eq_refl ltac:(lra)))
           ltac:(cbn; lra)).
Defined.

Lemma assign_to_cells_buckets_witness :
  (assign_to_cells two_particles).2 = Ok tt /\
  forall key, NoDup (cells (assign_to_cells two_particles).1 key).
Proof.
  destruct (assign_to_cells_buckets two_particles two_particles_well_formed
              ltac:(cbn; lra) ltac:(cbn; lia) two_particles_in_domain)
    as (Hok & _ & Hnd & _).
  split; [exact Hok |]. intros key. exact (proj1 (Hnd key)).
Defined.

Lemma update_positions_inside_box_witness :
  positions (update_positions two_particles) !! 1%nat
  = Some (vadd (V3 0.25 0.25 0.25)
            (vscale (time_step two_particles) (V3 0 0 0))).
Proof.
  refine (proj1 (update_positions_inside_box two_particles 1
                   (V3 0.25 0.25 0.25) (V3 0 0 0) ltac:(cbn; lra)
                   eq_refl eq_refl _)).
  unfold in_domain, vadd, vscale.
  cbn [vx vy vz domain_size time_step two_particles]. lra.
Defined.

Lemma random_unit_vector_on_sphere_witness :
  random_unit_vector 0 0.25 = V3 0 0 1.
Proof.
  exact (proj2 (proj2 (proj2 (random_unit_vector_on_sphere 0 0.25
                                ltac:(lra)))) eq_refl).
Defined.

Lemma init_builds_valid_object_witness :
  exists self0,
    init (Args.defaults 2 1) zero_init_draws = Ok self0 /\
    well_formed self0 /\ (assign_to_cells self0).2 = Ok tt.
Proof.
  destruct (init_defaults_ok 2 1 zero_init_draws ltac:(lia)) as [self0 H0].
  exists self0. split; [exact H0 |].
  destruct (init_builds_valid_object (Args.defaults 2 1) zero_init_draws
              self0 H0 (proj2 (proj2 (defaults_physical 2 1)))
              zero_init_draws_valid)
    as (Hwf & _ & Hok & _).
  split; [exact Hwf | exact Hok].
Defined.

Lemma init_derived_constants_witness :
  exists self0,
    init (Args.defaults 2 1) zero_init_draws = Ok self0 /\
    0 < p_inelastic self0 < 1 /\ 0 < time_step self0.
Proof.
  destruct (init_defaults_ok 2 1 zero_init_draws ltac:(lia)) as [self0 H0].
  exists self0. split; [exact H0 |].
  destruct (init_derived_constants (Args.defaults 2 1) zero_init_draws
              self0 H0 (proj1 (defaults_physical 2 1))
              (proj2 (proj2 (defaults_physical 2 1))))
    as (Hp & Hts & _).
  split; [apply Hp; cbn; lra | exact Hts].
Defined.


Lemma run_counts_every_attempt_witness :
  exists self0,
    init (Args.defaults 2 1) zero_init_draws = Ok self0 /\
    (run_steps 2 (self0, constant_rng)).1.2 0%nat
    = constant_rng
        (elastic_collisions (run_steps 2 (self0, constant_rng)).1.1
         + inelastic_collisions (run_steps 2 (self0, constant_rng)).1.1
         + rejected_collisions (run_steps 2 (self0, constant_rng)).1.1
         + 0)%nat.
Proof.
  destruct (init_defaults_ok 2 1 zero_init_draws ltac:(lia)) as [self0 H0].
  exists self0. split; [exact H0 |].
  exact (run_counts_every_attempt (Args.defaults 2 1)
           zero_init_draws constant_rng self0 2 H0
           (defaults_physical 2 1) constant_rng_valid 0%nat).
Defined.

Lemma run_keeps_constants_witness :
  exists self0,
    init (Args.defaults 2 1) zero_init_draws = Ok self0 /\
    constants (run_steps 2 (self0, constant_rng)).1.1 = constants self0.
Proof.
  destruct (init_defaults_ok 2 1 zero_init_draws ltac:(lia)) as [self0 H0].
  exists self0. split; [exact H0 |].
  exact (proj1 (run_keeps_constants (Args.defaults 2 1)
                  zero_init_draws constant_rng self0 2 H0
                  (defaults_physical 2 1) constant_rng_valid)).
Defined.



Lemma perform_collision_counts_one_attempt_witness :
  attempts (perform_collision two_particles 0 1 1 elastic_draws).1
  = S (attempts two_particles).
Proof.
  destruct (proj2 (perform_collision_counts_one_attempt two_particles 0 1 1
                     elastic_draws) (V3 1 0 0) (V3 0 0 0) eq_refl eq_refl)
    as (_ & _ & _ & Hatt & _).
  exact Hatt.
Defined.

Lemma sigmoid_inv_sigmoid_witness : sigmoid (inv_sigmoid 0.5) = 0.5.
Proof.
  apply (proj1 (proj2 (sigmoid_inv_sigmoid 0.5))). lra.
Defined.

Lemma mdn_energy_exchange_fractions_witness :
  mdn_energy_exchange two_particles (0, 0, 0) = Raise AttributeError /\
  exists eps_t_post eps_r1_post,
    mdn_energy_exchange (with_mdn true (Some constant_model) two_particles)
      (0, 0, 0)
    = Ok (eps_t_post, eps_r1_post) /\
    0 <= eps_t_post <= 1 /\ 0 <= eps_r1_post <= 1.
Proof.
  split.
  - exact (proj1 mdn_energy_exchange_fractions two_particles (0, 0, 0)
             eq_refl).
  - destruct (proj2 mdn_energy_exchange_fractions
                (with_mdn true (Some constant_model) two_particles)
                constant_model 0 0 0 eq_refl)
      as (e1 & e2 & Hok & _ & _ & H1 & H2 & _).
    exists e1, e2. split; [exact Hok |]. split; [exact H1 | exact H2].
Defined.
